(** * renderCompare: the tester runner (src/freeDView_tester_runner.cpp)

    A shallow embedding of [TesterRunner]: the coordinator that launches the
    external comparison tool, reads its output line by line, attributes
    progress lines to test keys and reports the outcome of a run.

    Qt types are modelled by what the runner uses of them:
    - [QString] is a [string] of 8-bit characters (the tool prints ASCII);
    - [QRegExp] is a small greedy backtracking matcher for the pattern
      syntax that occurs in the runner;
    - [QMap<QString,int>] is an association list kept in ascending key
      order, which is the order a QMap iterates in;
    - [QQueue<QString>] is a list, front first;
    - [QProcess] is its state, and what the operating system answers is an
      explicit argument of the operations that ask it;
    - a signal that is emitted is appended to a log. *)

From Stdlib Require Import String Ascii List ZArith NArith Bool Lia.
From Stdlib Require Import DecimalString OrdersEx RelationClasses.
Import ListNotations.

Local Open Scope string_scope.
Local Open Scope Z_scope.

(** ** QString *)

Module QString.

Definition isEmpty (s : string) : bool :=
  match s with
  | EmptyString => true
  | String _ _ => false
  end.

Definition size (s : string) : Z := Z.of_nat (String.length s).

(** QChar::isSpace on the 8-bit range: tab, line feed, vertical tab, form
    feed, carriage return and space. *)
Definition isSpace (c : ascii) : bool :=
  let n := N_of_ascii c in
  ((9 <=? n) && (n <=? 13) || (n =? 32))%N.

Definition isDigit (c : ascii) : bool :=
  let n := N_of_ascii c in
  ((48 <=? n) && (n <=? 57))%N.

Definition isUpper (c : ascii) : bool :=
  let n := N_of_ascii c in
  ((65 <=? n) && (n <=? 90))%N.

Definition isLower (c : ascii) : bool :=
  let n := N_of_ascii c in
  ((97 <=? n) && (n <=? 122))%N.

Definition toLowerChar (c : ascii) : ascii :=
  if isUpper c then ascii_of_N (N_of_ascii c + 32) else c.

Fixpoint map (f : ascii -> ascii) (s : string) : string :=
  match s with
  | EmptyString => EmptyString
  | String c s' => String (f c) (map f s')
  end.

Definition toLower (s : string) : string := map toLowerChar s.

(** [s.replace(before, after)] for one-character [before] and [after]. *)
Definition replace (before after : ascii) (s : string) : string :=
  map (fun c => if Ascii.eqb c before then after else c) s.

Fixpoint startsWith (s p : string) {struct p} : bool :=
  match p, s with
  | EmptyString, _ => true
  | String _ _, EmptyString => false
  | String a p', String b s' => Ascii.eqb a b && startsWith s' p'
  end.

(** [s.indexOf(p)]: the first position where [p] occurs, or -1. *)
Fixpoint indexOf (s p : string) : Z :=
  if startsWith s p then 0
  else match s with
       | EmptyString => -1
       | String _ s' =>
           let i := indexOf s' p in
           if i <? 0 then -1 else i + 1
       end.

(** [s.indexOf(p, 0, Qt::CaseInsensitive)] and
    [s.contains(p, Qt::CaseInsensitive)]. *)
Definition indexOfCI (s p : string) : Z := indexOf (toLower s) (toLower p).

Definition containsCI (s p : string) : bool := 0 <=? indexOfCI s p.

(** [s.mid(n)]: the string from position [n] on. *)
Fixpoint drop (n : nat) (s : string) : string :=
  match n, s with
  | O, _ => s
  | S _, EmptyString => EmptyString
  | S n', String _ s' => drop n' s'
  end.

Definition mid (s : string) (pos : Z) : string := drop (Z.to_nat pos) s.

Fixpoint left (n : nat) (s : string) : string :=
  match n, s with
  | O, _ => EmptyString
  | S _, EmptyString => EmptyString
  | S n', String c s' => String c (left n' s')
  end.

(** [s[i]], for [0 <= i < s.length()]. *)
Definition at_ (s : string) (i : Z) : option ascii :=
  if i <? 0 then None else String.get (Z.to_nat i) s.

Fixpoint endsWithChar (s : string) (c : ascii) : bool :=
  match s with
  | EmptyString => false
  | String d EmptyString => Ascii.eqb d c
  | String _ s' => endsWithChar s' c
  end.

(** [s.chop(1)]. *)
Fixpoint chop1 (s : string) : string :=
  match s with
  | EmptyString => EmptyString
  | String _ EmptyString => EmptyString
  | String c s' => String c (chop1 s')
  end.

Fixpoint trimLeft (s : string) : string :=
  match s with
  | EmptyString => EmptyString
  | String c s' => if isSpace c then trimLeft s' else s
  end.

Fixpoint trimRight (s : string) : string :=
  match s with
  | EmptyString => EmptyString
  | String c s' =>
      let t := trimRight s' in
      if isEmpty t && isSpace c then EmptyString else String c t
  end.

Definition trimmed (s : string) : string := trimRight (trimLeft s).

(** [s.split(sep)]: the fields between the separators, empty ones kept. *)
Fixpoint split (sep : ascii) (s : string) : list string :=
  match s with
  | EmptyString => [EmptyString]
  | String c s' =>
      if Ascii.eqb c sep then EmptyString :: split sep s'
      else match split sep s' with
           | [] => [String c EmptyString]
           | f :: fs => String c f :: fs
           end
  end.

(** [s.split(sep, QString::SkipEmptyParts)]. *)
Definition splitSkipEmpty (sep : ascii) (s : string) : list string :=
  filter (fun f => negb (isEmpty f)) (split sep s).

Fixpoint join (sep : string) (parts : list string) : string :=
  match parts with
  | [] => EmptyString
  | [p] => p
  | p :: ps => p ++ sep ++ join sep ps
  end.

Definition INT_MAX : Z := 2147483647.

Fixpoint digitsValue (acc : Z) (s : string) : option Z :=
  match s with
  | EmptyString => Some acc
  | String c s' =>
      if isDigit c
      then digitsValue (10 * acc + Z.of_N (N_of_ascii c - 48)) s'
      else None
  end.

(** [s.toInt()] on a run of digits: the value, or 0 when the text is not a
    number or does not fit an int. *)
Definition toInt (s : string) : Z :=
  match s with
  | EmptyString => 0
  | _ => match digitsValue 0 s with
         | Some v => if v <=? INT_MAX then v else 0
         | None => 0
         end
  end.

(** The text [QString::arg(int)] substitutes: the decimal numeral. *)
Definition number (z : Z) : string := NilZero.string_of_int (Z.to_int z).

End QString.

(** ** QRegExp

    The patterns of the runner use literals, the classes [\s], [\d], [.] and
    bracket sets, the greedy quantifiers [*] and [+], and capturing groups.
    [indexIn] looks for the leftmost position where the pattern matches. *)

Module QRegExp.

Inductive regex : Type :=
| Eps : regex
| Chr : ascii -> regex
| Class : (ascii -> bool) -> regex
| Seq : regex -> regex -> regex
| Star : regex -> regex
| Plus : regex -> regex
| Group : nat -> regex -> regex.

Definition captures : Type := list (nat * string).

Fixpoint cap (cs : captures) (n : nat) : string :=
  match cs with
  | [] => EmptyString
  | (m, s) :: cs' => if Nat.eqb m n then s else cap cs' n
  end.

Section Matcher.
Context {A : Type}.

Definition cont : Type := string -> captures -> option A.

(** A greedy repetition: take one more iteration when the rest of the
    pattern still matches afterwards, otherwise go on with what is there.
    An iteration that consumes nothing is not repeated. *)
Fixpoint repeat_ (fuel : nat) (step : string -> captures -> cont -> option A)
         (s : string) (cs : captures) (k : cont) : option A :=
  match fuel with
  | O => k s cs
  | S fuel' =>
      match step s cs (fun s' cs' =>
              if (String.length s' <? String.length s)%nat
              then repeat_ fuel' step s' cs' k
              else None) with
      | Some a => Some a
      | None => k s cs
      end
  end.

Fixpoint run (r : regex) (s : string) (cs : captures) (k : cont) : option A :=
  match r with
  | Eps => k s cs
  | Chr c =>
      match s with
      | String d s' => if Ascii.eqb c d then k s' cs else None
      | EmptyString => None
      end
  | Class p =>
      match s with
      | String d s' => if p d then k s' cs else None
      | EmptyString => None
      end
  | Seq r1 r2 => run r1 s cs (fun s' cs' => run r2 s' cs' k)
  | Star r' => repeat_ (String.length s) (run r') s cs k
  | Plus r' =>
      run r' s cs (fun s' cs' => repeat_ (String.length s') (run r') s' cs' k)
  | Group n r' =>
      run r' s cs (fun s' cs' =>
        k s' ((n, QString.left (String.length s - String.length s') s) :: cs'))
  end.
End Matcher.

Definition matchHere (r : regex) (s : string) : option captures :=
  run r s [] (fun _ cs => Some cs).

(** [rx.indexIn(s) != -1], with the captured texts of the match. *)
Fixpoint indexIn (r : regex) (s : string) : option captures :=
  match matchHere r s with
  | Some cs => Some cs
  | None =>
      match s with
      | EmptyString => None
      | String _ s' => indexIn r s'
      end
  end.

Fixpoint lit (s : string) : regex :=
  match s with
  | EmptyString => Eps
  | String c EmptyString => Chr c
  | String c s' => Seq (Chr c) (lit s')
  end.

Definition ws : regex := Class QString.isSpace.
Definition digit : regex := Class QString.isDigit.
Definition any : regex := Class (fun _ => true).

Fixpoint seq (rs : list regex) : regex :=
  match rs with
  | [] => Eps
  | [r] => r
  | r :: rs' => Seq r (seq rs')
  end.

End QRegExp.

(** ** QMap<QString, int>

    The entries in ascending key order.  [insert] is [operator[]] used as an
    assignment target, [value] is the read of a key that is present. *)

Module QMap.

Definition t : Type := list (string * Z).

Definition empty : t := [].

Fixpoint insert (k : string) (v : Z) (m : t) : t :=
  match m with
  | [] => [(k, v)]
  | (k', v') :: m' =>
      match String_as_OT.compare k' k with
      | Lt => (k', v') :: insert k v m'
      | Eq => (k, v) :: m'
      | Gt => (k, v) :: (k', v') :: m'
      end
  end.

Fixpoint remove (k : string) (m : t) : t :=
  match m with
  | [] => []
  | (k', v') :: m' =>
      if String.eqb k' k then remove k m' else (k', v') :: remove k m'
  end.

Fixpoint find (k : string) (m : t) : option Z :=
  match m with
  | [] => None
  | (k', v') :: m' => if String.eqb k' k then Some v' else find k m'
  end.

Definition contains (m : t) (k : string) : bool :=
  match find k m with
  | Some _ => true
  | None => false
  end.

Definition value (m : t) (k : string) : Z :=
  match find k m with
  | Some v => v
  | None => 0
  end.

Definition keys (m : t) : list string := List.map fst m.

(** Keys strictly ascending: what every QMap satisfies. *)
Fixpoint ok (m : t) : Prop :=
  match m with
  | [] => True
  | (k, _) :: m' =>
      Forall (fun kv => String_as_OT.compare k (fst kv) = Lt) m' /\ ok m'
  end.

End QMap.

(** ** QProcess and the host *)

Module QProcess.

Inductive ProcessState : Type := NotRunning | Starting | Running.

Inductive ExitStatus : Type := NormalExit | CrashExit.

Record t : Type := mk {
  state : ProcessState;
  program : string;
  arguments : list string;
  workingDirectory : string
}.

Definition idle : t := mk NotRunning "" [] "".

Definition setState (s : ProcessState) (p : t) : t :=
  mk s (program p) (arguments p) (workingDirectory p).

Definition configure (prog : string) (args : list string) (wd : string) (p : t) : t :=
  mk (state p) prog args wd.

Definition active (p : t) : bool :=
  match state p with
  | Running | Starting => true
  | NotRunning => false
  end.

Definition exitedCleanly (exitStatus : ExitStatus) (exitCode : Z) : bool :=
  match exitStatus with
  | NormalExit => exitCode =? 0
  | CrashExit => false
  end.

(** What [start()] followed by [waitForStarted(5000)] brings. *)
Inductive StartOutcome : Type := Started | FailedToStart | StartTimedOut.

(** What [kill()] followed by [waitForFinished(2000)] brings: the process
    ends within the wait, and Qt then emits [finished] before the wait
    returns, or the wait times out. *)
Inductive WaitOutcome : Type :=
| Finished (exitCode : Z) (exitStatus : ExitStatus) (stdOut stdErr : string)
| WaitTimedOut.

(** [start()]: a process that is not idle is left alone (Qt only warns). *)
Definition start (p : t) : t :=
  match state p with
  | NotRunning => setState Starting p
  | _ => p
  end.

Definition waitForStarted (o : StartOutcome) (p : t) : bool * t :=
  match state p with
  | Running => (true, p)
  | NotRunning => (false, p)
  | Starting =>
      match o with
      | Started => (true, setState Running p)
      | FailedToStart => (false, setState NotRunning p)
      | StartTimedOut => (false, p)
      end
  end.

End QProcess.

(** The answers of the file system and of the operating system that one
    call of the runner depends on. *)
Record Host : Type := mkHost {
  dirExists : string -> string -> bool;
  dirCd : string -> string -> string;
  absolutePath : string -> string;
  absoluteFilePath : string -> string -> string;
  fileExists : string -> bool;
  isExecutable : string -> bool;
  findExecutable : string -> string;
  startOutcome : QProcess.StartOutcome;
  errorString : string;
  killOutcome : QProcess.WaitOutcome;
  prepareUIKillOutcome : QProcess.WaitOutcome
}.

(** ** The runner's state and signals *)

Module Mode.
Inductive t : Type := None | All | CompareThenPrepare.
End Mode.

Inductive Signal : Type :=
| runStarted (mode : string)
| runFinished (success : bool) (mode : string) (exitCode : Z) (stdOut stdErr : string)
| progressUpdated (percentage : Z) (message : string)
| testProgressUpdated (testKey : string) (percentage : Z) (message : string)
| outputLine (line : string) (isError : bool).

Record TesterRunner : Type := mkRunner {
  m_process : QProcess.t;
  m_prepareUIProcess : QProcess.t;
  m_mode : Mode.t;
  m_testerPath : string;
  m_iniPath : string;
  m_step2Queued : bool;
  m_currentTestKey : string;
  m_activeTests : QMap.t;
  m_testKeyQueue : list string
}.

(** The constructor. *)
Definition newRunner : TesterRunner :=
  mkRunner QProcess.idle QProcess.idle Mode.None "" "" false "" QMap.empty [].

Definition set_process (p : QProcess.t) (r : TesterRunner) : TesterRunner :=
  mkRunner p (m_prepareUIProcess r) (m_mode r) (m_testerPath r) (m_iniPath r)
    (m_step2Queued r) (m_currentTestKey r) (m_activeTests r) (m_testKeyQueue r).

Definition set_prepareUIProcess (p : QProcess.t) (r : TesterRunner) : TesterRunner :=
  mkRunner (m_process r) p (m_mode r) (m_testerPath r) (m_iniPath r)
    (m_step2Queued r) (m_currentTestKey r) (m_activeTests r) (m_testKeyQueue r).

Definition set_mode (m : Mode.t) (r : TesterRunner) : TesterRunner :=
  mkRunner (m_process r) (m_prepareUIProcess r) m (m_testerPath r) (m_iniPath r)
    (m_step2Queued r) (m_currentTestKey r) (m_activeTests r) (m_testKeyQueue r).

Definition set_paths (testerPath iniPath : string) (r : TesterRunner) : TesterRunner :=
  mkRunner (m_process r) (m_prepareUIProcess r) (m_mode r) testerPath iniPath
    (m_step2Queued r) (m_currentTestKey r) (m_activeTests r) (m_testKeyQueue r).

Definition set_step2Queued (b : bool) (r : TesterRunner) : TesterRunner :=
  mkRunner (m_process r) (m_prepareUIProcess r) (m_mode r) (m_testerPath r) (m_iniPath r)
    b (m_currentTestKey r) (m_activeTests r) (m_testKeyQueue r).

Definition set_currentTestKey (k : string) (r : TesterRunner) : TesterRunner :=
  mkRunner (m_process r) (m_prepareUIProcess r) (m_mode r) (m_testerPath r) (m_iniPath r)
    (m_step2Queued r) k (m_activeTests r) (m_testKeyQueue r).

Definition set_activeTests (m : QMap.t) (r : TesterRunner) : TesterRunner :=
  mkRunner (m_process r) (m_prepareUIProcess r) (m_mode r) (m_testerPath r) (m_iniPath r)
    (m_step2Queued r) (m_currentTestKey r) m (m_testKeyQueue r).

Definition set_testKeyQueue (q : list string) (r : TesterRunner) : TesterRunner :=
  mkRunner (m_process r) (m_prepareUIProcess r) (m_mode r) (m_testerPath r) (m_iniPath r)
    (m_step2Queued r) (m_currentTestKey r) (m_activeTests r) q.

(** The three tracking members are always cleared together. *)
Definition clearTracking (r : TesterRunner) : TesterRunner :=
  set_currentTestKey "" (set_testKeyQueue [] (set_activeTests QMap.empty r)).

(** ** Member functions as state transformers

    A member function reads and writes the runner, emits signals, and may
    have no defined result (C++ leaves a conversion of a floating value
    that does not fit an int undefined). *)

Definition Run (A : Type) : Type :=
  TesterRunner -> option (A * TesterRunner * list Signal).

Definition ret {A : Type} (a : A) : Run A := fun r => Some (a, r, []).

Definition bind {A B : Type} (c : Run A) (f : A -> Run B) : Run B :=
  fun r =>
    match c r with
    | None => None
    | Some (a, r1, e1) =>
        match f a r1 with
        | None => None
        | Some (b, r2, e2) => Some (b, r2, (e1 ++ e2)%list)
        end
    end.

Definition get : Run TesterRunner := fun r => Some (r, r, []).

Definition modify (f : TesterRunner -> TesterRunner) : Run unit :=
  fun r => Some (tt, f r, []).

Definition emit (s : Signal) : Run unit := fun r => Some (tt, r, [s]).

Definition undefined {A : Type} : Run A := fun _ => None.

Definition when (b : bool) (c : Run unit) : Run unit :=
  if b then c else ret tt.

Fixpoint forEach {A : Type} (l : list A) (body : A -> Run unit) : Run unit :=
  match l with
  | [] => ret tt
  | x :: l' => bind (body x) (fun _ => forEach l' body)
  end.

Declare Scope run_scope.
Delimit Scope run_scope with run.
Notation "x <- c ;; k" := (bind c (fun x => k))
  (at level 61, c at next level, right associativity) : run_scope.
Notation "c ;; k" := (bind c (fun _ => k))
  (at level 61, right associativity) : run_scope.
Local Open Scope run_scope.

(** The signals of a call, and the state it leaves. *)
Definition signals {A : Type} (o : option (A * TesterRunner * list Signal)) : list Signal :=
  match o with
  | Some (_, _, e) => e
  | None => []
  end.

Definition isRunFinished (s : Signal) : bool :=
  match s with
  | runFinished _ _ _ _ _ => true
  | _ => false
  end.

Definition runOutcomes (e : list Signal) : list Signal := filter isRunFinished e.

(** ** extractTestKeyFromPath *)

Definition resultsMarker : string := "testSets_results".

(** [while (startIndex < path.length() && path[startIndex] == '/') startIndex++] *)
Fixpoint skipSlashes (fuel : nat) (path : string) (startIndex : Z) : Z :=
  match fuel with
  | O => startIndex
  | S fuel' =>
      if (startIndex <? QString.size path) &&
         match QString.at_ path startIndex with
         | Some c => Ascii.eqb c "/"
         | None => false
         end
      then skipSlashes fuel' path (startIndex + 1)
      else startIndex
  end.

(** [while (testKey.endsWith("/")) testKey.chop(1)] *)
Fixpoint chopSlashes (fuel : nat) (testKey : string) : string :=
  match fuel with
  | O => testKey
  | S fuel' =>
      if QString.endsWithChar testKey "/"
      then chopSlashes fuel' (QString.chop1 testKey)
      else testKey
  end.

(** [([A-Za-z0-9_\s/]+/[A-Z0-9_]+/[A-Z0-9]+/F\d+)] *)
Definition testKeyRegex : QRegExp.regex :=
  let word c := QString.isUpper c || QString.isLower c || QString.isDigit c
                || Ascii.eqb c "_" || QString.isSpace c || Ascii.eqb c "/" in
  let upper_ c := QString.isUpper c || QString.isDigit c || Ascii.eqb c "_" in
  let upper c := QString.isUpper c || QString.isDigit c in
  QRegExp.Group 1
    (QRegExp.seq [QRegExp.Plus (QRegExp.Class word); QRegExp.Chr "/";
                  QRegExp.Plus (QRegExp.Class upper_); QRegExp.Chr "/";
                  QRegExp.Plus (QRegExp.Class upper); QRegExp.lit "/F";
                  QRegExp.Plus QRegExp.digit]).

Definition extractTestKeyFromPath (folderPath : string) : string :=
  let normalizedPath := QString.replace "\" "/" folderPath in
  let lowerPath := QString.toLower normalizedPath in
  let testSetsResultsIndex := QString.indexOf lowerPath "testsets_results" in
  if testSetsResultsIndex >=? 0 then
    let actualStartIndex := QString.indexOfCI normalizedPath resultsMarker in
    let startIndex :=
      if actualStartIndex >=? 0
      then actualStartIndex + QString.size resultsMarker
      else testSetsResultsIndex + QString.size resultsMarker in
    let startIndex :=
      skipSlashes (S (String.length normalizedPath)) normalizedPath startIndex in
    let testKey := QString.mid normalizedPath startIndex in
    let testKey := chopSlashes (String.length testKey) testKey in
    QString.replace "\" "/" testKey
  else
    match QRegExp.indexIn testKeyRegex normalizedPath with
    | Some cs =>
        let testKey := QRegExp.cap cs 1 in
        let parts := QString.split "/" testKey in
        if (4 <=? List.length parts)%nat
        then QString.join "/" (skipn (List.length parts - 4) parts)
        else testKey
    | None => ""
    end.

(** ** findTestKeyByFrameCount *)

(** The keys of the active tests whose frame count is known and equals
    [frameCount], in the map's order. *)
Definition matchingKeys (m : QMap.t) (frameCount : Z) : list string :=
  List.map fst
    (filter (fun kv => (snd kv =? frameCount) && (snd kv >? 0)) m).

Definition containsKey (keys : list string) (k : string) : bool :=
  existsb (String.eqb k) keys.

Definition findTestKeyByFrameCount (r : TesterRunner) (frameCount : Z) : string :=
  match matchingKeys (m_activeTests r) frameCount with
  | [] => ""
  | [k] => k
  | (k0 :: _) as keys =>
      (* the queue from back to front *)
      match List.find (containsKey keys) (rev (m_testKeyQueue r)) with
      | Some queueKey => queueKey
      | None => k0
      end
  end.

(** ** The handlers of the output lines *)

Definition startingRegex : QRegExp.regex :=
  QRegExp.seq [QRegExp.lit "Starting comparison for:"; QRegExp.Star QRegExp.ws;
               QRegExp.Group 1 (QRegExp.Plus QRegExp.any)].

Definition progressTail : list QRegExp.regex :=
  [QRegExp.Star QRegExp.ws; QRegExp.Group 1 (QRegExp.Plus QRegExp.digit);
   QRegExp.Chr "/"; QRegExp.Group 2 (QRegExp.Plus QRegExp.digit);
   QRegExp.Star QRegExp.ws; QRegExp.lit "frames"; QRegExp.Star QRegExp.ws;
   QRegExp.Chr "("; QRegExp.Group 3 (QRegExp.Plus QRegExp.digit);
   QRegExp.lit "%)"].

Definition progressRegex : QRegExp.regex :=
  QRegExp.seq (QRegExp.lit "Progress:" :: progressTail).

Definition overallProgressRegex : QRegExp.regex :=
  QRegExp.seq (QRegExp.lit "Overall progress:" :: progressTail).

Definition currentFolderRegex : QRegExp.regex :=
  QRegExp.seq [QRegExp.lit "Current folder:"; QRegExp.Star QRegExp.ws;
               QRegExp.Group 1 (QRegExp.Plus QRegExp.digit); QRegExp.Chr "/";
               QRegExp.Group 2 (QRegExp.Plus QRegExp.digit);
               QRegExp.Star QRegExp.ws; QRegExp.lit "frames"].

Definition completedRegex : QRegExp.regex :=
  QRegExp.seq [QRegExp.lit "Successfully completed comparison for:";
               QRegExp.Star QRegExp.ws;
               QRegExp.Group 1 (QRegExp.Plus QRegExp.any)].

Definition phaseRegex : QRegExp.regex :=
  QRegExp.seq [QRegExp.lit "Phase"; QRegExp.Star QRegExp.ws;
               QRegExp.Group 1 (QRegExp.Plus QRegExp.digit)].

(** [QString("Processing: %1/%2 frames").arg(current).arg(total)] *)
Definition processingMessage (current total : Z) : string :=
  "Processing: " ++ QString.number current ++ "/" ++ QString.number total ++ " frames".

(** [m_currentTestKey = testKey; m_activeTests[testKey] = 0;
    m_testKeyQueue.enqueue(testKey)] *)
Definition register (testKey : string) (r : TesterRunner) : TesterRunner :=
  set_testKeyQueue (m_testKeyQueue r ++ [testKey])%list
    (set_activeTests (QMap.insert testKey 0 (m_activeTests r))
       (set_currentTestKey testKey r)).

(** "Starting comparison for:" *)
Definition onStartingComparison (folderPath : string) : Run unit :=
  let testKey := extractTestKeyFromPath folderPath in
  when (negb (QString.isEmpty testKey))
    (modify (register testKey) ;;
     emit (testProgressUpdated testKey 0 "Starting...")).

(** The first key of the queue that is active with an unknown frame count. *)
Fixpoint oldestUnknown (m : QMap.t) (queue : list string) : option string :=
  match queue with
  | [] => None
  | queueKey :: queue' =>
      if QMap.contains m queueKey && (QMap.value m queueKey =? 0)
      then Some queueKey
      else oldestUnknown m queue'
  end.

(** To which test a progress line with [total] frames belongs: the match by
    frame count, else the oldest test of unknown size, which then takes
    [total] as its size; the empty key when there is neither. *)
Definition attributeProgress (total : Z) : Run string :=
  r <- get ;;
  let matchedTestKey := findTestKeyByFrameCount r total in
  if QString.isEmpty matchedTestKey then
    match oldestUnknown (m_activeTests r) (m_testKeyQueue r) with
    | Some queueKey =>
        modify (set_activeTests (QMap.insert queueKey total (m_activeTests r))) ;;
        ret queueKey
    | None => ret matchedTestKey
    end
  else ret matchedTestKey.

(** "Progress: current/total frames (percent%)" *)
Definition onProgress (current total percent : Z) : Run unit :=
  let message := processingMessage current total in
  matchedTestKey <- attributeProgress total ;;
  when (negb (QString.isEmpty matchedTestKey))
    (emit (testProgressUpdated matchedTestKey percent message)) ;;
  emit (progressUpdated percent message).

(** [folderTotal > 0 ? (int)((folderCurrent * 100.0) / folderTotal) : 0].
    On ints the truncated quotient of the doubles is the integer quotient;
    the conversion has no defined result when that does not fit an int. *)
Definition folderPercent (folderCurrent folderTotal : Z) : option Z :=
  if folderTotal >? 0 then
    let q := (folderCurrent * 100) / folderTotal in
    if q <=? QString.INT_MAX then Some q else None
  else Some 0.

(** "Overall progress: current/total frames (percent%)", with or without
    "Current folder: a/b frames". *)
Definition onOverallProgress (line : string) (current total percent : Z) : Run unit :=
  match QRegExp.indexIn currentFolderRegex line with
  | Some cs =>
      let folderCurrent := QString.toInt (QRegExp.cap cs 1) in
      let folderTotal := QString.toInt (QRegExp.cap cs 2) in
      match folderPercent folderCurrent folderTotal with
      | Some percentage =>
          let message := processingMessage folderCurrent folderTotal in
          matchedTestKey <- attributeProgress folderTotal ;;
          when (negb (QString.isEmpty matchedTestKey))
            (emit (testProgressUpdated matchedTestKey percentage message))
      | None => undefined
      end
  | None => ret tt
  end ;;
  emit (progressUpdated percent (processingMessage current total)).

Fixpoint removeFirst (k : string) (queue : list string) : list string :=
  match queue with
  | [] => []
  | x :: queue' => if String.eqb x k then queue' else x :: removeFirst k queue'
  end.

(** "Successfully completed comparison for:" *)
Definition onCompleted (folderPath : string) : Run unit :=
  let testKey := extractTestKeyFromPath folderPath in
  r <- get ;;
  if negb (QString.isEmpty testKey) then
    emit (testProgressUpdated testKey 100 "Completed") ;;
    modify (fun r => set_activeTests (QMap.remove testKey (m_activeTests r)) r) ;;
    modify (fun r => set_testKeyQueue (removeFirst testKey (m_testKeyQueue r)) r) ;;
    modify (fun r => if String.eqb (m_currentTestKey r) testKey
                     then set_currentTestKey "" r else r)
  else if negb (QString.isEmpty (m_currentTestKey r)) then
    emit (testProgressUpdated (m_currentTestKey r) 100 "Completed") ;;
    modify (fun r => set_activeTests (QMap.remove (m_currentTestKey r) (m_activeTests r)) r) ;;
    modify (set_currentTestKey "")
  else ret tt.

(** "Frame comparison completed", the older marker that names no test. *)
Definition onFrameComparisonCompleted (line : string) : Run unit :=
  when (QString.containsCI line "Frame comparison completed")
    (r <- get ;;
     when (negb (QString.isEmpty (m_currentTestKey r)))
       (emit (testProgressUpdated (m_currentTestKey r) 100 "Completed") ;;
        modify (fun r => set_activeTests
                           (QMap.remove (m_currentTestKey r) (m_activeTests r)) r))).

Definition onPhaseCompleted (line : string) : Run unit :=
  when (QString.containsCI line "Phase" && QString.containsCI line "completed")
    match QRegExp.indexIn phaseRegex line with
    | Some cs =>
        emit (progressUpdated (-1) ("Phase " ++ QRegExp.cap cs 1 ++ " completed"))
    | None => ret tt
    end.

Definition onAllCompleted (line : string) : Run unit :=
  when (QString.containsCI line "All phases completed"
        || QString.containsCI line "completed successfully")
    (emit (progressUpdated 100 "Processing completed")).

(** One line of standard output: the first pattern that matches decides. *)
Definition processLine (line : string) : Run unit :=
  match QRegExp.indexIn startingRegex line with
  | Some cs => onStartingComparison (QString.trimmed (QRegExp.cap cs 1))
  | None =>
  match QRegExp.indexIn progressRegex line with
  | Some cs =>
      onProgress (QString.toInt (QRegExp.cap cs 1)) (QString.toInt (QRegExp.cap cs 2))
                 (QString.toInt (QRegExp.cap cs 3))
  | None =>
  match QRegExp.indexIn overallProgressRegex line with
  | Some cs =>
      onOverallProgress line
        (QString.toInt (QRegExp.cap cs 1)) (QString.toInt (QRegExp.cap cs 2))
        (QString.toInt (QRegExp.cap cs 3))
  | None =>
  match QRegExp.indexIn completedRegex line with
  | Some cs => onCompleted (QString.trimmed (QRegExp.cap cs 1))
  | None =>
      onFrameComparisonCompleted line ;;
      onPhaseCompleted line ;;
      onAllCompleted line
  end end end end.

Definition emitOutputLines (tag : string) (output : string) (isError : bool) : Run unit :=
  forEach (QString.split "010" output) (fun rawLine =>
    let trimmedLine := QString.trimmed rawLine in
    when (negb (QString.isEmpty trimmedLine))
      (emit (outputLine (tag ++ trimmedLine) isError))).

(** The slots connected to readyReadStandardOutput and to
    readyReadStandardError of the main process; [output] is what was read. *)
Definition onReadyReadStandardOutput (output : string) : Run unit :=
  emitOutputLines "" output false ;;
  forEach (QString.splitSkipEmpty "010" output) processLine.

Definition onReadyReadStandardError (output : string) : Run unit :=
  emitOutputLines "" output true.

(** The same two slots of the process of phase 4. *)
Definition onPrepareUIReadyRead (output : string) (isError : bool) : Run unit :=
  emitOutputLines "[Phase 4] " output isError.

(** ** Launching *)

(** [QDir wd(testerPath); if (wd.exists("src")) wd.cd("src"); wd.absolutePath()] *)
Definition workingDir (h : Host) (testerPath : string) : string :=
  if dirExists h testerPath "src"
  then absolutePath h (dirCd h testerPath "src")
  else absolutePath h testerPath.

(** The argument list: main.py, the INI file of the tester project when it
    exists and the given one otherwise, then the subcommand. *)
Definition toolArguments (h : Host) (testerPath iniPath subcommand : string) : list string :=
  let testerIniPath := absoluteFilePath h testerPath "freeDView_tester.ini" in
  let actualIniPath :=
    if fileExists h testerIniPath then testerIniPath
    else if negb (QString.isEmpty iniPath) then iniPath
    else iniPath in
  (["main.py"]
   ++ (if negb (QString.isEmpty actualIniPath) then ["--ini"; actualIniPath] else [])
   ++ [subcommand])%list.

Definition startProcess (h : Host) (program : string) (args : list string)
           (workingDirectory : string) : Run unit :=
  modify (fun r => set_process (QProcess.configure program args workingDirectory (m_process r)) r) ;;
  let found :=
    if negb (fileExists h program) && negb (isExecutable h program)
    then negb (QString.isEmpty (findExecutable h program))
    else true in
  if negb found then
    emit (runFinished false "unknown" (-1) "" ("Program not found: " ++ program))
  else
    modify (fun r => set_process (QProcess.start (m_process r)) r) ;;
    r <- get ;;
    let (started, p) := QProcess.waitForStarted (startOutcome h) (m_process r) in
    modify (set_process p) ;;
    when (negb started)
      (emit (runFinished false "unknown" (-1) ""
               ("Failed to start process: " ++ errorString h))).

Definition runAll (h : Host) (testerPath iniPath : string) : Run unit :=
  if QString.isEmpty testerPath then
    emit (runFinished false "all" (-1) "" "Invalid tester path")
  else if QString.isEmpty iniPath then
    emit (runFinished false "all" (-1) "" "Invalid INI path")
  else
    modify (fun r => clearTracking
                       (set_step2Queued false
                          (set_mode Mode.All (set_paths testerPath iniPath r)))) ;;
    emit (runStarted "all") ;;
    startProcess h "python" (toolArguments h testerPath iniPath "all")
      (workingDir h testerPath).

Definition runCompareAndPrepare (h : Host) (testerPath iniPath : string) : Run unit :=
  if QString.isEmpty testerPath then
    emit (runFinished false "compare+prepare" (-1) "" "Invalid tester path")
  else if QString.isEmpty iniPath then
    emit (runFinished false "compare+prepare" (-1) "" "Invalid INI path")
  else
    modify (fun r => clearTracking
                       (set_step2Queued false
                          (set_mode Mode.CompareThenPrepare
                             (set_paths testerPath iniPath r)))) ;;
    emit (runStarted "compare+prepare") ;;
    startProcess h "python" (toolArguments h testerPath iniPath "compare")
      (workingDir h testerPath).

(** Phase 4 alone, on the second process. *)
Definition runPrepareUI (h : Host) (testerPath iniPath : string) : Run unit :=
  if QString.isEmpty testerPath then
    emit (runFinished false "prepare-ui" (-1) "" "Invalid tester path")
  else if QString.isEmpty iniPath then
    emit (runFinished false "prepare-ui" (-1) "" "Invalid INI path")
  else
    r <- get ;;
    if QProcess.active (m_prepareUIProcess r) then ret tt
    else
      modify (fun r => set_prepareUIProcess
                (QProcess.configure "python"
                   (toolArguments h testerPath iniPath "prepare-ui")
                   (workingDir h testerPath) (m_prepareUIProcess r)) r) ;;
      emit (runStarted "prepare-ui") ;;
      modify (fun r => set_prepareUIProcess (QProcess.start (m_prepareUIProcess r)) r).

Definition runNextStep (h : Host) : Run unit :=
  r <- get ;;
  match m_mode r with
  | Mode.CompareThenPrepare =>
      startProcess h "python"
        (toolArguments h (m_testerPath r) (m_iniPath r) "prepare-ui")
        (workingDir h (m_testerPath r))
  | _ => ret tt
  end.

(** ** The end of a process *)

Definition modeStr (m : Mode.t) : string :=
  match m with
  | Mode.All => "all"
  | Mode.CompareThenPrepare => "compare+prepare"
  | Mode.None => "unknown"
  end.

(** The slot of [finished] of the main process; [stdOut] and [stdErr] are
    what is left to read.  Qt emits [finished] once the process is not
    running any more, so the wait of the slot for that has nothing to do. *)
Definition onProcessFinished (h : Host) (exitCode : Z)
           (exitStatus : QProcess.ExitStatus) (stdOut stdErr : string) : Run unit :=
  modify clearTracking ;;
  emit (progressUpdated 100 "Processing completed") ;;
  r <- get ;;
  match m_mode r, m_step2Queued r with
  | Mode.CompareThenPrepare, false =>
      modify (set_step2Queued true) ;;
      runNextStep h
  | _, _ =>
      let success := QProcess.exitedCleanly exitStatus exitCode in
      emit (runFinished success (modeStr (m_mode r)) exitCode stdOut stdErr) ;;
      modify (fun r => set_step2Queued false (set_mode Mode.None r))
  end.

(** The slot of [finished] of the process of phase 4. *)
Definition onPrepareUIProcessFinished (exitCode : Z)
           (exitStatus : QProcess.ExitStatus) (stdOut stdErr : string) : Run unit :=
  let success := QProcess.exitedCleanly exitStatus exitCode in
  emit (runFinished success "prepare-ui" exitCode stdOut stdErr).

(** The main process ends: Qt marks it as not running and calls the slot. *)
Definition processFinished (h : Host) (exitCode : Z)
           (exitStatus : QProcess.ExitStatus) (stdOut stdErr : string) : Run unit :=
  modify (fun r => set_process (QProcess.setState QProcess.NotRunning (m_process r)) r) ;;
  onProcessFinished h exitCode exitStatus stdOut stdErr.

Definition prepareUIProcessFinished (exitCode : Z)
           (exitStatus : QProcess.ExitStatus) (stdOut stdErr : string) : Run unit :=
  modify (fun r => set_prepareUIProcess
            (QProcess.setState QProcess.NotRunning (m_prepareUIProcess r)) r) ;;
  onPrepareUIProcessFinished exitCode exitStatus stdOut stdErr.

(** ** stop *)

(** [kill()] and [waitForFinished(2000)], and [kill()] again after a wait
    that timed out.  A process that ends within the wait has its
    [finished] slot run before the wait returns. *)
Definition killAndWait (o : QProcess.WaitOutcome)
           (deliver : Z -> QProcess.ExitStatus -> string -> string -> Run unit) : Run unit :=
  match o with
  | QProcess.Finished exitCode exitStatus stdOut stdErr =>
      deliver exitCode exitStatus stdOut stdErr
  | QProcess.WaitTimedOut => ret tt
  end.

Definition stop (h : Host) : Run unit :=
  r <- get ;;
  when (QProcess.active (m_process r))
    (killAndWait (killOutcome h) (processFinished h) ;;
     r <- get ;;
     forEach (QMap.keys (m_activeTests r))
       (fun testKey => emit (testProgressUpdated testKey (-1) "Cancelled")) ;;
     modify clearTracking ;;
     emit (runFinished false (modeStr (m_mode r)) (-1) "" "Operation cancelled by user") ;;
     modify (fun r => set_step2Queued false (set_mode Mode.None r))) ;;
  r <- get ;;
  when (QProcess.active (m_prepareUIProcess r))
    (killAndWait (prepareUIKillOutcome h) prepareUIProcessFinished ;;
     emit (runFinished false "prepare-ui" (-1) "" "Phase 4 cancelled by user")).

(** ** Start order

    The queue holds a key once for every "Starting comparison for:" line
    that named it.  [lastStart] is the position of the most recent of
    them, [firstStart] the position of the oldest. *)

Fixpoint firstStart (queue : list string) (k : string) : option nat :=
  match queue with
  | [] => None
  | x :: queue' =>
      if String.eqb x k then Some O
      else option_map S (firstStart queue' k)
  end.

Fixpoint lastStart (queue : list string) (k : string) : option nat :=
  match queue with
  | [] => None
  | x :: queue' =>
      match lastStart queue' k with
      | Some i => Some (S i)
      | None => if String.eqb x k then Some O else None
      end
  end.

(** A test is active with frame count [n]. *)
Definition activeWith (r : TesterRunner) (k : string) (n : Z) : Prop :=
  QMap.contains (m_activeTests r) k = true /\ QMap.value (m_activeTests r) k = n.

(** What the handlers keep true of the tracking members: the map is a map,
    every active key is in the queue, and the empty key is never active. *)
Record tracked (r : TesterRunner) : Prop := mkTracked {
  tracked_ok : QMap.ok (m_activeTests r);
  tracked_queue : forall k, QMap.contains (m_activeTests r) k = true ->
                            In k (m_testKeyQueue r);
  tracked_nonempty : QMap.contains (m_activeTests r) "" = false
}.

(** ** Hosts and states used in the examples *)

(** A host whose tester directory has a [src] folder and no INI file of its
    own, with or without python on the search path. *)
Definition hostWith (pythonOnPath : bool) (start : QProcess.StartOutcome)
           (kill killUI : QProcess.WaitOutcome) : Host :=
  mkHost (fun _ _ => true)
         (fun dir name => dir ++ "/" ++ name)
         (fun path => path)
         (fun dir file => dir ++ "/" ++ file)
         (fun _ => false)
         (fun _ => false)
         (fun program => if pythonOnPath then "/usr/bin/" ++ program else "")
         start "No such file or directory" kill killUI.

Definition goodHost : Host :=
  hostWith true QProcess.Started QProcess.WaitTimedOut QProcess.WaitTimedOut.

(** The program is there and the process starts. *)
Definition launches (h : Host) (program : string) : Prop :=
  (fileExists h program = true \/ isExecutable h program = true \/
   findExecutable h program <> "") /\
  startOutcome h = QProcess.Started.

(** The state and the signals of a sequence of calls from a fresh runner. *)
Definition stateAfter (c : Run unit) : option TesterRunner :=
  match c newRunner with
  | Some (_, r, _) => Some r
  | None => None
  end.

Definition newline : string := String "010" EmptyString.

(** What the tool prints for two tests that start one after the other and
    then report 200 and 300 frames. *)
Definition twoTestsOutput : string :=
  "Starting comparison for: C:/results/testSets_results/Cat/Ev/Set/F0001" ++ newline ++
  "Starting comparison for: C:/results/testSets_results/Cat/Ev/Set/F0002" ++ newline ++
  "Progress: 5/200 frames (2%)" ++ newline ++
  "Progress: 3/300 frames (1%)" ++ newline ++
  "Progress: 100/200 frames (50%)" ++ newline.

Definition isTestProgress (s : Signal) : bool :=
  match s with
  | testProgressUpdated _ _ _ => true
  | _ => false
  end.

(** ** Paths *)

Definition isSeparator (c : ascii) : bool := Ascii.eqb c "/" || Ascii.eqb c "\".

Fixpoint allSeparators (s : string) : bool :=
  match s with
  | EmptyString => true
  | String c s' => isSeparator c && allSeparators s'
  end.

Definition startsWithSeparator (s : string) : bool :=
  match s with
  | EmptyString => false
  | String c _ => isSeparator c
  end.

Definition endsWithSeparator (s : string) : bool :=
  QString.endsWithChar s "/" || QString.endsWithChar s "\".

(** A path with its backslashes turned into slashes. *)
Definition normalized (s : string) : string := QString.replace "\" "/" s.

Fixpoint slashes (n : nat) : string :=
  match n with
  | O => EmptyString
  | S n' => String "/" (slashes n')
  end.

(** ** Example states *)

Definition keyA : string := "Cat/Ev/Set/F0001".
Definition keyB : string := "Cat/Ev/Set/F0002".

Definition tracking (m : QMap.t) (queue : list string) : TesterRunner :=
  set_testKeyQueue queue (set_activeTests m newRunner).

(** A main process that is running the given mode. *)
Definition running (mode : Mode.t) (r : TesterRunner) : TesterRunner :=
  set_mode mode
    (set_process (QProcess.mk QProcess.Running "python" ["main.py"] "C:/tester/src") r).

Definition pathF0007 : string := "C:/results/testSets_results/Cat/Ev/Set/F0007".

Definition firstPhase : TesterRunner := running Mode.CompareThenPrepare newRunner.

Definition overallLine : string :=
  "Overall progress: 8/500 frames (1%) - Current folder: 4/0 frames".

(** A decidable form of [tracked]. *)
Fixpoint okb (m : QMap.t) : bool :=
  match m with
  | [] => true
  | (k, _) :: m' =>
      forallb (fun kv => match String_as_OT.compare k (fst kv) with
                         | Lt => true
                         | _ => false
                         end) m'
      && okb m'
  end.

Definition trackedb (r : TesterRunner) : bool :=
  okb (m_activeTests r)
  && forallb (containsKey (m_testKeyQueue r)) (QMap.keys (m_activeTests r))
  && negb (QMap.contains (m_activeTests r) "").

(** ** Invariants *)

(** [c] keeps the property [Inv] of the runner. *)
Definition preserves (Inv : TesterRunner -> Prop) {A : Type} (c : Run A) : Prop :=
  forall r a r' e, Inv r -> c r = Some (a, r', e) -> Inv r'.

(** No two active tests have the same known frame count. *)
Definition distinctTotals (r : TesterRunner) : Prop :=
  forall k1 k2 n, 0 < n -> activeWith r k1 n -> activeWith r k2 n -> k1 = k2.

Definition wellTracked (r : TesterRunner) : Prop := tracked r /\ distinctTotals r.


(** ** The runner as a reactive object

    What can happen to a runner: a call of one of its invokable members, or
    a signal of one of its two processes. *)

Inductive Event : Type :=
| CallRunAll (h : Host) (testerPath iniPath : string)
| CallRunCompareAndPrepare (h : Host) (testerPath iniPath : string)
| CallRunPrepareUI (h : Host) (testerPath iniPath : string)
| CallStop (h : Host)
| StandardOutput (output : string)
| StandardError (output : string)
| ProcessFinished (h : Host) (exitCode : Z) (exitStatus : QProcess.ExitStatus)
                  (stdOut stdErr : string)
| PrepareUIOutput (output : string) (isError : bool)
| PrepareUIFinished (exitCode : Z) (exitStatus : QProcess.ExitStatus)
                    (stdOut stdErr : string).

Definition dispatch (ev : Event) : Run unit :=
  match ev with
  | CallRunAll h testerPath iniPath => runAll h testerPath iniPath
  | CallRunCompareAndPrepare h testerPath iniPath =>
      runCompareAndPrepare h testerPath iniPath
  | CallRunPrepareUI h testerPath iniPath => runPrepareUI h testerPath iniPath
  | CallStop h => stop h
  | StandardOutput output => onReadyReadStandardOutput output
  | StandardError output => onReadyReadStandardError output
  | ProcessFinished h exitCode exitStatus stdOut stdErr =>
      processFinished h exitCode exitStatus stdOut stdErr
  | PrepareUIOutput output isError => onPrepareUIReadyRead output isError
  | PrepareUIFinished exitCode exitStatus stdOut stdErr =>
      prepareUIProcessFinished exitCode exitStatus stdOut stdErr
  end.

Definition runEvents (evs : list Event) : Run unit := forEach evs dispatch.

(** The members that the handlers of the output never write. *)
Definition control (r : TesterRunner)
  : QProcess.t * QProcess.t * Mode.t * string * string * bool :=
  (m_process r, m_prepareUIProcess r, m_mode r, m_testerPath r, m_iniPath r,
   m_step2Queued r).

(** The three members that track the tests. *)
Definition trackingOf (r : TesterRunner) : string * QMap.t * list string :=
  (m_currentTestKey r, m_activeTests r, m_testKeyQueue r).

Definition stateOf {A : Type} (o : option (A * TesterRunner * list Signal))
  : option TesterRunner :=
  match o with
  | Some (_, r, _) => Some r
  | None => None
  end.

Definition isOutputLine (s : Signal) : bool :=
  match s with
  | outputLine _ _ => true
  | _ => false
  end.

Definition isRunSignal (s : Signal) : bool :=
  match s with
  | runStarted _ | runFinished _ _ _ _ _ => true
  | _ => false
  end.

(** Every signal of [c] satisfies [P]. *)
Definition emitsOnly (P : Signal -> Prop) {A : Type} (c : Run A) : Prop :=
  forall r a r' e, c r = Some (a, r', e) -> Forall P e.

(** The lines of a chunk that are forwarded as raw output. *)
Definition forwardedLines (output : string) : list string :=
  filter (fun l => negb (QString.isEmpty l))
         (List.map QString.trimmed (QString.split "010" output)).

Fixpoint hasChar (c : ascii) (s : string) : bool :=
  match s with
  | EmptyString => false
  | String d s' => Ascii.eqb d c || hasChar c s'
  end.

(** The INI file a launch passes to the tool. *)
Definition chosenIni (h : Host) (testerPath iniPath : string) : string :=
  if fileExists h (absoluteFilePath h testerPath "freeDView_tester.ini")
  then absoluteFilePath h testerPath "freeDView_tester.ini"
  else iniPath.

(** The events of one run of the tool that announces two tests. *)
Definition twoTestsRun : list Event :=
  [CallRunAll goodHost "C:/tester" "C:/tester/run.ini"; StandardOutput twoTestsOutput].

(** * Properties *)

(** ** The map *)

Module QMapFacts.
Import QMap.

Lemma compare_eq (a b : string) : String_as_OT.compare a b = Eq -> a = b.
Proof.
  intros H. destruct (String_as_OT.compare_spec a b) as [E | L | L];
    [exact E | discriminate | discriminate].
Qed.

Lemma compare_refl (a : string) : String_as_OT.compare a a = Eq.
Proof.
  destruct (String_as_OT.compare_spec a a) as [E | L | L]; auto;
    exfalso; exact (StrictOrder_Irreflexive a L).
Qed.

Lemma compare_lt_neq (a b : string) : String_as_OT.compare a b = Lt -> a <> b.
Proof.
  intros H E. subst b. rewrite compare_refl in H. discriminate.
Qed.

Lemma compare_gt_lt (a b : string) :
  String_as_OT.compare a b = Gt -> String_as_OT.compare b a = Lt.
Proof.
  intros H.
  destruct (String_as_OT.compare_spec b a) as [E | L | L]; auto.
  - hnf in E. subst b. rewrite compare_refl in H. discriminate.
  - unfold String_as_OT.lt in L. congruence.
Qed.

Lemma compare_lt_trans (a b c : string) :
  String_as_OT.compare a b = Lt -> String_as_OT.compare b c = Lt ->
  String_as_OT.compare a c = Lt.
Proof.
  intros H1 H2.
  exact (StrictOrder_Transitive (R := String_as_OT.lt) a b c H1 H2).
Qed.

Lemma find_insert_eq k v m : find k (insert k v m) = Some v.
Proof.
  induction m as [| [k' v'] m IH]; simpl.
  - now rewrite String.eqb_refl.
  - destruct (String_as_OT.compare k' k) eqn:C; simpl.
    + now rewrite String.eqb_refl.
    + apply compare_lt_neq in C. apply String.eqb_neq in C. now rewrite C.
    + now rewrite String.eqb_refl.
Qed.

Lemma find_insert_neq k k' v m : k <> k' -> find k' (insert k v m) = find k' m.
Proof.
  intros N. induction m as [| [k0 v0] m IH]; simpl.
  - apply String.eqb_neq in N. now rewrite N.
  - destruct (String_as_OT.compare k0 k) eqn:C; simpl.
    + apply compare_eq in C. subst k0.
      apply String.eqb_neq in N. now rewrite N.
    + now rewrite IH.
    + apply String.eqb_neq in N. now rewrite N.
Qed.

Lemma find_remove_eq k m : find k (remove k m) = None.
Proof.
  induction m as [| [k' v'] m IH]; simpl; auto.
  destruct (String.eqb k' k) eqn:E; simpl; auto. now rewrite E.
Qed.

Lemma find_remove_neq k k' m : k <> k' -> find k' (remove k m) = find k' m.
Proof.
  intros N. induction m as [| [k0 v0] m IH]; simpl; auto.
  destruct (String.eqb k0 k) eqn:E; simpl.
  - apply String.eqb_eq in E. subst k0.
    apply String.eqb_neq in N. now rewrite N.
  - now rewrite IH.
Qed.

Lemma contains_insert k k' v m :
  contains (insert k v m) k' = String.eqb k k' || contains m k'.
Proof.
  unfold contains. destruct (String.eqb_spec k k') as [E | N].
  - subst. now rewrite find_insert_eq.
  - now rewrite find_insert_neq.
Qed.

Lemma contains_remove k k' m :
  contains (remove k m) k' = negb (String.eqb k k') && contains m k'.
Proof.
  unfold contains. destruct (String.eqb_spec k k') as [E | N].
  - subst. now rewrite find_remove_eq.
  - now rewrite find_remove_neq.
Qed.

Lemma value_insert_eq k v m : value (insert k v m) k = v.
Proof. unfold value. now rewrite find_insert_eq. Qed.

Lemma value_insert_neq k k' v m : k <> k' -> value (insert k v m) k' = value m k'.
Proof. intros N. unfold value. now rewrite find_insert_neq. Qed.

Lemma find_In k v m : find k m = Some v -> In (k, v) m.
Proof.
  induction m as [| [k' v'] m IH]; simpl; try discriminate.
  destruct (String.eqb_spec k' k) as [E | N]; intros H.
  - left. congruence.
  - right. auto.
Qed.

Lemma In_find k v m : ok m -> In (k, v) m -> find k m = Some v.
Proof.
  induction m as [| [k' v'] m IH]; simpl; [tauto |].
  intros [F O] [E | I].
  - inversion E; subst. now rewrite String.eqb_refl.
  - destruct (String.eqb_spec k' k) as [E | N].
    + subst k'. rewrite Forall_forall in F. apply F in I. simpl in I.
      rewrite compare_refl in I. discriminate.
    + auto.
Qed.

Lemma Forall_insert (P : string * Z -> Prop) k v m :
  (forall k' v1 v2, P (k', v1) -> P (k', v2)) ->
  Forall P m -> P (k, v) -> Forall P (insert k v m).
Proof.
  intros Pv F Pk. induction F as [| [k' v'] m H F IH]; simpl.
  - repeat constructor. exact Pk.
  - destruct (String_as_OT.compare k' k); repeat constructor; auto.
Qed.

Lemma ok_insert k v m : ok m -> ok (insert k v m).
Proof.
  induction m as [| [k' v'] m IH]; simpl.
  - intros _. split; [constructor | exact I].
  - intros [F O]. destruct (String_as_OT.compare k' k) eqn:C; simpl.
    + apply compare_eq in C. subst k'. now split.
    + split; [| now apply IH].
      apply Forall_insert; auto.
    + apply compare_gt_lt in C. split; [| now split].
      constructor; [exact C |].
      rewrite Forall_forall in *. intros kv H. apply F in H.
      eapply compare_lt_trans; eauto.
Qed.

Lemma Forall_remove (P : string * Z -> Prop) k m :
  Forall P m -> Forall P (remove k m).
Proof.
  induction 1 as [| [k' v'] m H F IH]; simpl; [constructor |].
  destruct (String.eqb k' k); auto.
Qed.

Lemma ok_remove k m : ok m -> ok (remove k m).
Proof.
  induction m as [| [k' v'] m IH]; simpl; auto.
  intros [F O]. destruct (String.eqb k' k); simpl; auto.
  split; auto using Forall_remove.
Qed.

(** Writing the value a key already has changes nothing. *)
Lemma insert_same k v m : ok m -> find k m = Some v -> insert k v m = m.
Proof.
  induction m as [| [k' v'] m IH]; simpl; [discriminate |].
  intros [F O]. destruct (String.eqb_spec k' k) as [E | N]; intros H.
  - subst k'. rewrite compare_refl. congruence.
  - apply find_In in H as HI. rewrite Forall_forall in F.
    pose proof (F _ HI) as L. simpl in L. rewrite L. now rewrite IH.
Qed.

Lemma keys_insert_present k v m :
  ok m -> contains m k = true -> keys (insert k v m) = keys m.
Proof.
  unfold contains.
  induction m as [| [k' v'] m IH]; simpl; [discriminate |].
  intros [F O]. destruct (String.eqb_spec k' k) as [E | N]; intros H.
  - subst k'. now rewrite compare_refl.
  - destruct (find k m) as [v0 |] eqn:Fk; [| discriminate].
    apply find_In in Fk as HI. rewrite Forall_forall in F.
    pose proof (F _ HI) as L. simpl in L. rewrite L. simpl.
    f_equal. apply IH; auto.
Qed.

End QMapFacts.

(** ** The start-order queue *)

Section Queue.
Variable P : string -> bool.

Lemma find_rev_cons (a : string) (q : list string) :
  List.find P (rev (a :: q)) =
  match List.find P (rev q) with
  | Some x => Some x
  | None => if P a then Some a else None
  end.
Proof.
  simpl. generalize (rev q) as l. intros l.
  induction l as [| x l IH]; simpl; auto.
  destruct (P x); auto.
Qed.

Lemma find_rev_none (q : list string) :
  List.find P (rev q) = None -> forall x, In x q -> P x = false.
Proof.
  intros H x Hx. apply in_rev in Hx.
  exact (find_none P _ H x Hx).
Qed.

Lemma lastStart_none (q : list string) (k : string) :
  ~ In k q -> lastStart q k = None.
Proof.
  induction q as [| x q IH]; simpl; auto.
  intros N. rewrite IH by tauto.
  destruct (String.eqb_spec x k); auto. tauto.
Qed.

Lemma lastStart_some (q : list string) (k : string) (i : nat) :
  lastStart q k = Some i -> In k q.
Proof.
  revert i. induction q as [| x q IH]; simpl; [discriminate |].
  intros i. destruct (lastStart q k) as [j |] eqn:E.
  - intros _. right. eauto.
  - destruct (String.eqb_spec x k); [auto | discriminate].
Qed.

(** Going through the queue from the back finds the key that was
    enqueued last among those that satisfy the test. *)
Lemma find_rev_last (q : list string) (x : string) :
  List.find P (rev q) = Some x ->
  P x = true /\
  exists i, lastStart q x = Some i /\
            forall y j, P y = true -> lastStart q y = Some j -> (j <= i)%nat.
Proof.
  revert x. induction q as [| a q IH]; intros x; [discriminate |].
  rewrite find_rev_cons.
  destruct (List.find P (rev q)) as [x0 |] eqn:F.
  - intros E. inversion E; subst x0. clear E.
    destruct (IH x eq_refl) as [Px [i [Li Max]]].
    split; auto. exists (S i). simpl. rewrite Li. split; auto.
    intros y j Py. destruct (lastStart q y) as [j' |] eqn:Ly.
    + intros E. inversion E; subst. specialize (Max y j' Py Ly). lia.
    + destruct (String.eqb a y); intros E; inversion E. lia.
  - destruct (P a) eqn:Pa; [| discriminate].
    intros E. inversion E; subst a. clear E.
    split; auto. exists O. simpl.
    assert (N : forall y, P y = true -> lastStart q y = None).
    { intros y Py. apply lastStart_none. intros I.
      rewrite (find_rev_none q F y I) in Py. discriminate. }
    rewrite (N x Pa), String.eqb_refl. split; auto.
    intros y j Py. rewrite (N y Py).
    destruct (String.eqb x y); intros E; inversion E. lia.
Qed.

Lemma find_rev_some (q : list string) (k : string) :
  In k q -> P k = true -> exists x, List.find P (rev q) = Some x.
Proof.
  intros I Pk. destruct (List.find P (rev q)) as [x |] eqn:F; eauto.
  rewrite (find_rev_none q F k I) in Pk. discriminate.
Qed.
End Queue.

Lemma firstStart_some (q : list string) (k : string) :
  In k q -> exists i, firstStart q k = Some i.
Proof.
  induction q as [| x q IH]; simpl; [tauto |].
  intros [E | I].
  - subst. rewrite String.eqb_refl. eauto.
  - destruct (String.eqb x k); eauto.
    destruct (IH I) as [i Hi]. rewrite Hi. simpl. eauto.
Qed.

(** ** Matching by frame count *)

Lemma containsKey_In (keys : list string) (k : string) :
  containsKey keys k = true <-> In k keys.
Proof.
  unfold containsKey. rewrite existsb_exists. split.
  - intros [x [I E]]. apply String.eqb_eq in E. now subst.
  - intros I. exists k. split; auto. apply String.eqb_refl.
Qed.

Lemma matchingKeys_In (m : QMap.t) (n : Z) (k : string) :
  In k (matchingKeys m n) <-> In (k, n) m /\ 0 < n.
Proof.
  unfold matchingKeys. rewrite in_map_iff. split.
  - intros [[k' v] [E I]]. simpl in E. subst k'.
    apply filter_In in I. destruct I as [I B]. simpl in B.
    apply andb_true_iff in B. destruct B as [B1 B2].
    apply Z.eqb_eq in B1. subst v. split; auto. now apply Z.gtb_lt.
  - intros [I L]. exists (k, n). split; auto.
    apply filter_In. split; auto. simpl.
    rewrite Z.eqb_refl. simpl. now apply Z.gtb_lt.
Qed.

Lemma matchingKeys_active (r : TesterRunner) (n : Z) (k : string) :
  QMap.ok (m_activeTests r) ->
  In k (matchingKeys (m_activeTests r) n) <-> activeWith r k n /\ 0 < n.
Proof.
  intros O. rewrite matchingKeys_In. unfold activeWith, QMap.contains, QMap.value.
  split.
  - intros [I L]. apply QMapFacts.In_find in I; auto. rewrite I. auto.
  - intros [[C V] L].
    destruct (QMap.find k (m_activeTests r)) as [v |] eqn:F; [| discriminate].
    subst v. split; auto. now apply QMapFacts.find_In.
Qed.

(** The key returned is one of the matching keys, whatever the queue holds. *)
Lemma findTestKeyByFrameCount_matching (r : TesterRunner) (n : Z) :
  matchingKeys (m_activeTests r) n <> [] ->
  In (findTestKeyByFrameCount r n) (matchingKeys (m_activeTests r) n).
Proof.
  unfold findTestKeyByFrameCount.
  destruct (matchingKeys (m_activeTests r) n) as [| k0 [| k1 ks]] eqn:M.
  - congruence.
  - intros _. now left.
  - intros _.
    destruct (List.find (containsKey (k0 :: k1 :: ks)) (rev (m_testKeyQueue r)))
      as [x |] eqn:F.
    + apply find_some in F. destruct F as [_ F]. apply containsKey_In in F. exact F.
    + now left.
Qed.

Lemma findTestKeyByFrameCount_none (r : TesterRunner) (n : Z) :
  matchingKeys (m_activeTests r) n = [] -> findTestKeyByFrameCount r n = "".
Proof. unfold findTestKeyByFrameCount. now intros ->. Qed.

Lemma findTestKeyByFrameCount_single (r : TesterRunner) (n : Z) (k : string) :
  matchingKeys (m_activeTests r) n = [k] -> findTestKeyByFrameCount r n = k.
Proof. unfold findTestKeyByFrameCount. now intros ->. Qed.

(** C1. When the total of a progress line equals the known frame count of
    two or more active tests, [findTestKeyByFrameCount] returns the one of
    them that was enqueued last: a matching key, and no matching key has a
    later position in the start-order queue. *)
Theorem findTestKeyByFrameCount_most_recent (r : TesterRunner) (n : Z) (k1 k2 : string) :
  tracked r -> 0 < n -> k1 <> k2 ->
  activeWith r k1 n -> activeWith r k2 n ->
  let found := findTestKeyByFrameCount r n in
  activeWith r found n /\
  exists i, lastStart (m_testKeyQueue r) found = Some i /\
            forall k j, activeWith r k n ->
                        lastStart (m_testKeyQueue r) k = Some j -> (j <= i)%nat.
Proof.
  intros T L N A1 A2 found.
  pose proof (tracked_ok r T) as O.
  assert (I1 : In k1 (matchingKeys (m_activeTests r) n))
    by (apply matchingKeys_active; auto).
  assert (I2 : In k2 (matchingKeys (m_activeTests r) n))
    by (apply matchingKeys_active; auto).
  assert (Q1 : In k1 (m_testKeyQueue r))
    by (apply (tracked_queue r T); apply A1).
  subst found. unfold findTestKeyByFrameCount.
  destruct (matchingKeys (m_activeTests r) n) as [| k0 [| k0' ks]] eqn:M.
  - destruct I1.
  - simpl in I1, I2. intuition congruence.
  - set (keys := k0 :: k0' :: ks) in *.
    destruct (find_rev_some (containsKey keys) (m_testKeyQueue r) k1 Q1)
      as [x F]; [now apply containsKey_In |].
    rewrite F. apply find_rev_last in F. destruct F as [Px [i [Li Max]]].
    apply containsKey_In in Px. rewrite <- M in Px.
    apply matchingKeys_active in Px; auto.
    split; [apply Px |]. exists i. split; auto.
    intros k j A. apply Max. apply containsKey_In. subst keys. rewrite <- M.
    apply matchingKeys_active; auto.
Qed.

(** ** Attribution of a progress line *)

Lemma In_contains (m : QMap.t) (k : string) (v : Z) :
  In (k, v) m -> QMap.contains m k = true.
Proof.
  unfold QMap.contains.
  induction m as [| [k' v'] m IH]; simpl; [tauto |].
  intros [E | I].
  - inversion E; subst. now rewrite String.eqb_refl.
  - destruct (String.eqb k' k); auto.
Qed.

Lemma isEmpty_true (s : string) : QString.isEmpty s = true <-> s = "".
Proof. destruct s; simpl; split; congruence. Qed.

Lemma isEmpty_false (s : string) : QString.isEmpty s = false <-> s <> "".
Proof. destruct s; simpl; split; congruence. Qed.

Lemma attributeProgress_eq (total : Z) (r : TesterRunner) :
  attributeProgress total r =
  let k := findTestKeyByFrameCount r total in
  if QString.isEmpty k then
    match oldestUnknown (m_activeTests r) (m_testKeyQueue r) with
    | Some queueKey =>
        Some (queueKey,
              set_activeTests (QMap.insert queueKey total (m_activeTests r)) r, [])
    | None => Some (k, r, [])
    end
  else Some (k, r, []).
Proof.
  unfold attributeProgress, bind, get. cbv zeta.
  destruct (QString.isEmpty (findTestKeyByFrameCount r total)); [| reflexivity].
  destruct (oldestUnknown (m_activeTests r) (m_testKeyQueue r)); reflexivity.
Qed.

Lemma oldestUnknown_some (m : QMap.t) (q : list string) (k : string) :
  oldestUnknown m q = Some k ->
  In k q /\ QMap.contains m k = true /\ QMap.value m k = 0 /\
  exists i, firstStart q k = Some i /\
            forall k' j, QMap.contains m k' = true -> QMap.value m k' = 0 ->
                         firstStart q k' = Some j -> (i <= j)%nat.
Proof.
  induction q as [| x q IH]; simpl; [discriminate |].
  destruct (QMap.contains m x && (QMap.value m x =? 0)) eqn:B.
  - intros E. inversion E; subst x. clear E.
    apply andb_true_iff in B. destruct B as [C V]. apply Z.eqb_eq in V.
    rewrite String.eqb_refl. repeat split; auto.
    exists O. split; auto. intros. lia.
  - intros H. destruct (IH H) as [I [C [V [i [Fi Min]]]]].
    repeat split; auto.
    destruct (String.eqb_spec x k) as [E | N].
    + subst x. rewrite C, V in B. discriminate.
    + rewrite Fi. exists (S i). split; auto.
      intros k' j C' V'. destruct (String.eqb_spec x k') as [E' | N'].
      * subst x. rewrite C', V' in B. discriminate.
      * destruct (firstStart q k') as [j' |] eqn:Fj; simpl; intros E;
          inversion E; subst. specialize (Min k' j' C' V' Fj). lia.
Qed.

Lemma oldestUnknown_none (m : QMap.t) (q : list string) :
  oldestUnknown m q = None ->
  forall k, In k q -> QMap.contains m k = true -> QMap.value m k <> 0.
Proof.
  induction q as [| x q IH]; simpl; [tauto |].
  destruct (QMap.contains m x && (QMap.value m x =? 0)) eqn:B; [discriminate |].
  intros H k [E | I] C V.
  - subst x. rewrite C, V in B. discriminate.
  - exact (IH H k I C V).
Qed.

(** After a positive total was written to a key, and no key had that total
    before, that key is the only match. *)
Lemma matchingKeys_insert (m : QMap.t) (k : string) (total : Z) :
  0 < total -> matchingKeys m total = [] ->
  matchingKeys (QMap.insert k total m) total = [k].
Proof.
  intros L. unfold matchingKeys.
  assert (B : (total =? total) && (total >? 0) = true).
  { rewrite Z.eqb_refl. simpl. now apply Z.gtb_lt. }
  induction m as [| [k' v'] m IH]; cbn [QMap.insert filter List.map snd fst].
  - now rewrite B.
  - destruct ((v' =? total) && (v' >? 0)) eqn:B'; [discriminate |].
    intros M.
    destruct (String_as_OT.compare k' k); cbn [filter List.map snd fst].
    + rewrite B. cbn [List.map fst]. now rewrite M.
    + rewrite B'. auto.
    + rewrite B, B'. cbn [List.map fst]. now rewrite M.
Qed.

Lemma matchingKeys_nil (r : TesterRunner) (total : Z) :
  QMap.ok (m_activeTests r) ->
  (forall k n, activeWith r k n -> 0 < n -> n <> total) ->
  matchingKeys (m_activeTests r) total = [].
Proof.
  intros O H.
  destruct (matchingKeys (m_activeTests r) total) as [| k ks] eqn:M; auto.
  assert (I : In k (matchingKeys (m_activeTests r) total)) by (rewrite M; now left).
  apply matchingKeys_active in I; auto.
  destruct I as [A L]. elim (H k total A L eq_refl).
Qed.

Lemma matchingKeys_zero (m : QMap.t) : matchingKeys m 0 = [].
Proof.
  destruct (matchingKeys m 0) as [| k ks] eqn:M; auto.
  assert (I : In k (matchingKeys m 0)) by (rewrite M; now left).
  apply matchingKeys_In in I. lia.
Qed.

Lemma set_activeTests_same (r : TesterRunner) :
  set_activeTests (m_activeTests r) r = r.
Proof. now destruct r. Qed.

(** C2, as amended.  A progress line whose total equals no known frame
    count, while some active test has an unknown one, goes to the oldest
    such test of the queue, whose frame count becomes the total.  The next
    line with the same total goes to the same test: matched by frame count
    when the total is positive, and by the same rule again when it is 0,
    which is never matched by frame count. *)
Theorem attributeProgress_oldest_unknown (r : TesterRunner) (total : Z) (k0 : string) :
  tracked r ->
  (forall k n, activeWith r k n -> 0 < n -> n <> total) ->
  activeWith r k0 0 ->
  0 <= total ->
  exists k,
    let r' := set_activeTests (QMap.insert k total (m_activeTests r)) r in
    attributeProgress total r = Some (k, r', []) /\
    (forall current percent,
        onProgress current total percent r =
        Some (tt, r', [testProgressUpdated k percent (processingMessage current total);
                       progressUpdated percent (processingMessage current total)])) /\
    activeWith r k 0 /\
    (exists i, firstStart (m_testKeyQueue r) k = Some i /\
               forall k' j, activeWith r k' 0 ->
                            firstStart (m_testKeyQueue r) k' = Some j -> (i <= j)%nat) /\
    activeWith r' k total /\
    attributeProgress total r' = Some (k, r', []) /\
    (0 < total -> findTestKeyByFrameCount r' total = k) /\
    (total = 0 -> findTestKeyByFrameCount r' total = "").
Proof.
  intros T NoMatch [C0 V0] L.
  pose proof (tracked_ok r T) as O.
  pose proof (matchingKeys_nil r total O NoMatch) as M.
  destruct (oldestUnknown (m_activeTests r) (m_testKeyQueue r)) as [k |] eqn:F.
  2:{ exfalso.
      exact (oldestUnknown_none _ _ F k0 (tracked_queue r T k0 C0) C0 V0). }
  exists k. cbv zeta.
  set (r' := set_activeTests (QMap.insert k total (m_activeTests r)) r).
  destruct (oldestUnknown_some _ _ _ F) as [I [C [V [i [Fi Min]]]]].
  assert (NE : k <> "").
  { intros E. subst k. rewrite (tracked_nonempty r T) in C. discriminate. }
  assert (A : attributeProgress total r = Some (k, r', [])).
  { rewrite attributeProgress_eq. cbv zeta.
    rewrite (findTestKeyByFrameCount_none r total M). simpl. now rewrite F. }
  assert (Found : 0 < total -> findTestKeyByFrameCount r' total = k).
  { intros P. apply findTestKeyByFrameCount_single. unfold r'. simpl.
    now apply matchingKeys_insert. }
  split; [exact A |]. split.
  { intros current percent. unfold onProgress, bind. rewrite A.
    apply isEmpty_false in NE. rewrite NE. reflexivity. }
  split; [split; assumption |]. split.
  { exists i. split; auto. intros k' j [C' V']. now apply Min. }
  split.
  { unfold activeWith, r'. simpl.
    now rewrite QMapFacts.contains_insert, String.eqb_refl, QMapFacts.value_insert_eq. }
  split; [| split; [exact Found |]].
  - destruct (Z.eq_dec total 0) as [Z0 | NZ].
    + (* nothing was changed: the same line again *)
      assert (Same : r' = r).
      { unfold r'. subst total. rewrite QMapFacts.insert_same; auto.
        - apply set_activeTests_same.
        - unfold QMap.contains, QMap.value in C, V.
          destruct (QMap.find k (m_activeTests r)); congruence. }
      rewrite Same. rewrite Same in A. exact A.
    + rewrite attributeProgress_eq. cbv zeta. rewrite Found by lia.
      apply isEmpty_false in NE. now rewrite NE.
  - intros Z0. subst total. apply findTestKeyByFrameCount_none, matchingKeys_zero.
Qed.

Lemma firstStart_app (q l : list string) (k : string) :
  In k q -> firstStart (q ++ l) k = firstStart q k.
Proof.
  induction q as [| x q IH]; simpl; [tauto |].
  intros [E | I].
  - subst. now rewrite String.eqb_refl.
  - destruct (String.eqb x k); auto. now rewrite IH.
Qed.

Lemma lastStart_snoc (q : list string) (k : string) :
  lastStart (q ++ [k]) k = Some (List.length q).
Proof.
  induction q as [| x q IH]; simpl.
  - now rewrite String.eqb_refl.
  - now rewrite IH.
Qed.

(** C3, as amended.  A second "Starting comparison for:" line for a key
    that is already active keeps the set of active keys and every other
    test's frame count, and keeps the key's oldest place in the queue; it
    sets the key's frame count back to 0 and enqueues the key once more, so
    that its most recent place is the back of the queue.  The map is left
    as it was exactly when the frame count was still 0. *)
Theorem onStartingComparison_again (r : TesterRunner) (folderPath : string) :
  let k := extractTestKeyFromPath folderPath in
  tracked r -> k <> "" -> QMap.contains (m_activeTests r) k = true ->
  exists r',
    onStartingComparison folderPath r =
      Some (tt, r', [testProgressUpdated k 0 "Starting..."]) /\
    QMap.keys (m_activeTests r') = QMap.keys (m_activeTests r) /\
    QMap.value (m_activeTests r') k = 0 /\
    (forall k', k' <> k ->
                QMap.value (m_activeTests r') k' = QMap.value (m_activeTests r) k') /\
    m_testKeyQueue r' = (m_testKeyQueue r ++ [k])%list /\
    firstStart (m_testKeyQueue r') k = firstStart (m_testKeyQueue r) k /\
    lastStart (m_testKeyQueue r') k = Some (List.length (m_testKeyQueue r)) /\
    (QMap.value (m_activeTests r) k = 0 -> m_activeTests r' = m_activeTests r).
Proof.
  intros k T NE C.
  unfold onStartingComparison. fold k.
  apply isEmpty_false in NE as NE'. rewrite NE'.
  eexists. split; [reflexivity |]. simpl.
  pose proof (tracked_ok r T) as O.
  split; [now apply QMapFacts.keys_insert_present |].
  split; [apply QMapFacts.value_insert_eq |].
  split; [intros k' N; apply QMapFacts.value_insert_neq; congruence |].
  split; [reflexivity |].
  split; [apply firstStart_app; now apply (tracked_queue r T) |].
  split; [apply lastStart_snoc |].
  intros V. apply QMapFacts.insert_same; auto.
  unfold QMap.contains, QMap.value in *.
  destruct (QMap.find k (m_activeTests r)); congruence.
Qed.

(** ** Attribution only names active tests *)

Lemma attributeProgress_active (total : Z) (r r' : TesterRunner) (k : string)
      (e : list Signal) :
  attributeProgress total r = Some (k, r', e) -> k <> "" ->
  e = [] /\
  QMap.contains (m_activeTests r) k = true /\
  QMap.contains (m_activeTests r') k = true.
Proof.
  rewrite attributeProgress_eq. cbv zeta. intros H NE.
  destruct (QString.isEmpty (findTestKeyByFrameCount r total)) eqn:Em.
  - destruct (oldestUnknown (m_activeTests r) (m_testKeyQueue r)) as [qk |] eqn:F.
    + inversion H; subst. clear H.
      destruct (oldestUnknown_some _ _ _ F) as [_ [C _]].
      repeat split; auto. simpl.
      now rewrite QMapFacts.contains_insert, String.eqb_refl.
    + inversion H; subst. apply isEmpty_true in Em. congruence.
  - inversion H; subst. clear H.
    assert (C : QMap.contains (m_activeTests r') (findTestKeyByFrameCount r' total) = true).
    { assert (M : matchingKeys (m_activeTests r') total <> []).
      { intros M. rewrite (findTestKeyByFrameCount_none _ _ M) in Em. discriminate. }
      apply findTestKeyByFrameCount_matching in M.
      apply matchingKeys_In in M. destruct M as [M _].
      exact (In_contains _ _ _ M). }
    auto.
Qed.

(** C10.  A per-test progress signal that comes from the attribution by
    frame count names a test that is in the map of active tests, both when
    the line arrives and afterwards.  The marker "Frame comparison
    completed" takes the current test out of the map and leaves the queue
    as it is; neither phase of the attribution selects a key that is only
    in the queue. *)
Theorem attribution_names_active_test :
  (forall current total percent r r' e k p msg,
      onProgress current total percent r = Some (tt, r', e) ->
      In (testProgressUpdated k p msg) e ->
      QMap.contains (m_activeTests r) k = true /\
      QMap.contains (m_activeTests r') k = true) /\
  (forall line current total percent r r' e k p msg,
      onOverallProgress line current total percent r = Some (tt, r', e) ->
      In (testProgressUpdated k p msg) e ->
      QMap.contains (m_activeTests r) k = true /\
      QMap.contains (m_activeTests r') k = true) /\
  (forall line r,
      QString.containsCI line "Frame comparison completed" = true ->
      m_currentTestKey r <> "" ->
      exists r' e,
        onFrameComparisonCompleted line r = Some (tt, r', e) /\
        m_testKeyQueue r' = m_testKeyQueue r /\
        QMap.contains (m_activeTests r') (m_currentTestKey r) = false) /\
  (forall r total k,
      In k (m_testKeyQueue r) -> QMap.contains (m_activeTests r) k = false ->
      (findTestKeyByFrameCount r total = k -> k = "") /\
      oldestUnknown (m_activeTests r) (m_testKeyQueue r) <> Some k).
Proof.
  split; [| split; [| split]].
  - intros current total percent r r' e k p msg H I.
    unfold onProgress, bind in H.
    destruct (attributeProgress total r) as [[[k1 r1] e1] |] eqn:A; [| discriminate].
    destruct (QString.isEmpty k1) eqn:Em; simpl in H.
    + inversion H; subst. clear H.
      destruct k1; [| discriminate].
      rewrite attributeProgress_eq in A. cbv zeta in A.
      destruct (QString.isEmpty (findTestKeyByFrameCount r total));
        [destruct (oldestUnknown (m_activeTests r) (m_testKeyQueue r)) |];
        inversion A; subst; simpl in I;
        destruct I as [I | []]; discriminate.
    + apply isEmpty_false in Em.
      destruct (attributeProgress_active _ _ _ _ _ A Em) as [E1 [C C']].
      inversion H; subst. clear H. simpl in I.
      destruct I as [I | [I | []]]; inversion I; subst. auto.
  - intros line current total percent r r' e k p msg H I.
    unfold onOverallProgress, bind in H.
    destruct (QRegExp.indexIn currentFolderRegex line) as [cs |].
    + destruct (folderPercent (QString.toInt (QRegExp.cap cs 1))
                  (QString.toInt (QRegExp.cap cs 2))) as [pc |];
        [| discriminate].
      destruct (attributeProgress (QString.toInt (QRegExp.cap cs 2)) r)
        as [[[k1 r1] e1] |] eqn:A; [| discriminate].
      destruct (QString.isEmpty k1) eqn:Em; simpl in H.
      * inversion H; subst. clear H.
        destruct k1; [| discriminate].
        rewrite attributeProgress_eq in A. cbv zeta in A.
        destruct (QString.isEmpty (findTestKeyByFrameCount r _));
          [destruct (oldestUnknown (m_activeTests r) (m_testKeyQueue r)) |];
          inversion A; subst; simpl in I;
          destruct I as [I | []]; discriminate.
      * apply isEmpty_false in Em.
        destruct (attributeProgress_active _ _ _ _ _ A Em) as [E1 [C C']].
        inversion H; subst. clear H. simpl in I.
        destruct I as [I | [I | []]]; inversion I; subst. auto.
    + simpl in H. inversion H; subst. simpl in I.
      destruct I as [I | []]; discriminate.
  - intros line r Hc NE. unfold onFrameComparisonCompleted. rewrite Hc.
    apply isEmpty_false in NE. unfold when, bind, get. rewrite NE. simpl.
    eexists. eexists. split; [reflexivity |]. simpl. split; auto.
    now rewrite QMapFacts.contains_remove, String.eqb_refl.
  - intros r total k I C. split.
    + intros E.
      destruct (matchingKeys (m_activeTests r) total) as [| k1 ks] eqn:M.
      * now rewrite (findTestKeyByFrameCount_none _ _ M) in E.
      * assert (M' : matchingKeys (m_activeTests r) total <> [])
          by (rewrite M; discriminate).
        apply findTestKeyByFrameCount_matching in M'. rewrite E in M'.
        apply matchingKeys_In in M'. destruct M' as [M' _].
        apply In_contains in M'. congruence.
    + intros F. apply oldestUnknown_some in F. destruct F as [_ [C' _]].
      congruence.
Qed.

(** ** Launching and the end of a run *)

Lemma launches_found (h : Host) (program : string) :
  launches h program ->
  (if negb (fileExists h program) && negb (isExecutable h program)
   then negb (QString.isEmpty (findExecutable h program))
   else true) = true.
Proof.
  intros [[F | [X | N]] _].
  - now rewrite F.
  - rewrite X. now rewrite andb_false_r.
  - apply isEmpty_false in N. rewrite N.
    now destruct (negb (fileExists h program) && negb (isExecutable h program)).
Qed.

(** A process that is not running is launched when the host has the
    program and starts it: no signal, and the process runs. *)
Lemma startProcess_launches (h : Host) (program : string) (args : list string)
      (wd : string) (r : TesterRunner) :
  launches h program ->
  QProcess.state (m_process r) = QProcess.NotRunning ->
  startProcess h program args wd r =
  Some (tt, set_process (QProcess.mk QProcess.Running program args wd) r, []).
Proof.
  intros L S. unfold startProcess, bind, modify.
  rewrite (launches_found h program L). destruct L as [_ L].
  destruct r as [p pu mo tp ip sq ck at_ q]. destruct p as [s pr ar w].
  simpl in S. subst s. simpl. unfold QProcess.start, QProcess.waitForStarted.
  simpl. rewrite L. reflexivity.
Qed.

Lemma last_toolArguments (h : Host) (testerPath iniPath subcommand : string) :
  last (toolArguments h testerPath iniPath subcommand) "" = subcommand.
Proof.
  unfold toolArguments.
  match goal with |- context [if negb (QString.isEmpty ?x) then _ else _] =>
    destruct (negb (QString.isEmpty x)) end; reflexivity.
Qed.

(** C5, at the failing input.  [runAll] sets the mode to All before the
    launch; when python is not found, or does not start, the failure is
    reported and the mode stays All. *)
Theorem launch_failure_keeps_mode :
  let notFound :=
    hostWith false QProcess.Started QProcess.WaitTimedOut QProcess.WaitTimedOut in
  let notStarted :=
    hostWith true QProcess.FailedToStart QProcess.WaitTimedOut QProcess.WaitTimedOut in
  (signals (runAll notFound "C:/tester" "C:/tester/run.ini" newRunner) =
     [runStarted "all";
      runFinished false "unknown" (-1) "" "Program not found: python"] /\
   option_map m_mode (stateAfter (runAll notFound "C:/tester" "C:/tester/run.ini")) =
     Some Mode.All) /\
  (signals (runAll notStarted "C:/tester" "C:/tester/run.ini" newRunner) =
     [runStarted "all";
      runFinished false "unknown" (-1) ""
        "Failed to start process: No such file or directory"] /\
   option_map m_mode (stateAfter (runAll notStarted "C:/tester" "C:/tester/run.ini")) =
     Some Mode.All).
Proof. vm_compute. repeat split; reflexivity. Qed.

(** The same in a chained run: when python is gone at the end of the first
    phase, the failure is reported at once and the mode stays
    CompareThenPrepare. *)
Lemma second_phase_launch_failure :
  let notFound :=
    hostWith false QProcess.Started QProcess.WaitTimedOut QProcess.WaitTimedOut in
  signals (processFinished notFound 0 QProcess.NormalExit "" "" firstPhase) =
    [progressUpdated 100 "Processing completed";
     runFinished false "unknown" (-1) "" "Program not found: python"] /\
  option_map (fun r => (m_mode r, m_step2Queued r))
    (stateAfter (fun _ => processFinished notFound 0 QProcess.NormalExit "" "" firstPhase)) =
    Some (Mode.CompareThenPrepare, true).
Proof. vm_compute. split; reflexivity. Qed.

(** A request with an empty path is refused: the failure is reported and
    nothing changes. *)
Lemma runAll_invalid (h : Host) (testerPath iniPath : string) (r : TesterRunner) :
  testerPath = "" \/ iniPath = "" ->
  exists msg,
    runAll h testerPath iniPath r = Some (tt, r, [runFinished false "all" (-1) "" msg]).
Proof.
  intros [E | E]; subst; unfold runAll.
  - eexists. reflexivity.
  - destruct (QString.isEmpty testerPath); eexists; reflexivity.
Qed.

(** C6.  In chained mode, when the process of the first phase ends and the
    second phase is not queued yet, the runner queues it and starts
    "prepare-ui": no runFinished is emitted and the mode stays
    CompareThenPrepare.  The runFinished of the run comes with the end of
    the process of the second phase. *)
Theorem chained_first_exit_starts_second_phase
        (h : Host) (r : TesterRunner) (exitCode : Z)
        (exitStatus : QProcess.ExitStatus) (stdOut stdErr : string) :
  m_mode r = Mode.CompareThenPrepare -> m_step2Queued r = false ->
  launches h "python" ->
  exists r1,
    processFinished h exitCode exitStatus stdOut stdErr r =
      Some (tt, r1, [progressUpdated 100 "Processing completed"]) /\
    m_mode r1 = Mode.CompareThenPrepare /\
    m_step2Queued r1 = true /\
    QProcess.state (m_process r1) = QProcess.Running /\
    QProcess.program (m_process r1) = "python" /\
    last (QProcess.arguments (m_process r1)) "" = "prepare-ui" /\
    forall h' exitCode' exitStatus' stdOut' stdErr',
    exists r2,
      processFinished h' exitCode' exitStatus' stdOut' stdErr' r1 =
        Some (tt, r2,
              [progressUpdated 100 "Processing completed";
               runFinished (QProcess.exitedCleanly exitStatus' exitCode')
                           "compare+prepare" exitCode' stdOut' stdErr']) /\
      m_mode r2 = Mode.None /\ m_step2Queued r2 = false.
Proof.
  intros M Q L.
  destruct r as [p pu mo tp ip sq ck at_ q]. simpl in M, Q. subst mo sq.
  unfold processFinished, onProcessFinished, runNextStep, bind, modify, emit, get.
  simpl.
  rewrite (startProcess_launches h "python" _ _ _ L) by reflexivity.
  simpl. eexists. split; [reflexivity |]. simpl.
  do 4 (split; [reflexivity |]).
  split; [apply last_toolArguments |].
  intros h' c' s' o' e'. eexists. repeat split.
Qed.


Lemma forEach_emit {A : Type} (l : list A) (f : A -> Signal) (r : TesterRunner) :
  forEach l (fun x => emit (f x)) r = Some (tt, r, List.map f l).
Proof.
  induction l as [| x l IH]; simpl; [reflexivity |].
  unfold bind. unfold emit at 1. cbv beta iota. now rewrite IH.
Qed.

(** X20.  [stop] acts on a process that is running or starting.  For the
    main process, when the wait times out: one "Cancelled" signal for each
    active test in the order of the keys, then one failed runFinished with
    the cancellation message, and the runner is idle with nothing tracked.
    A process of phase 4 whose wait times out is stopped with a failed
    runFinished of its own.  With no process running [stop] emits nothing
    and changes nothing. *)
Lemma stop_cancels_running (h : Host) (r : TesterRunner) :
  let cancelled :=
    List.map (fun k => testProgressUpdated k (-1) "Cancelled")
             (QMap.keys (m_activeTests r)) in
  let outcome :=
    runFinished false (modeStr (m_mode r)) (-1) "" "Operation cancelled by user" in
  let outcomeUI :=
    runFinished false "prepare-ui" (-1) "" "Phase 4 cancelled by user" in
  (QProcess.active (m_process r) = true ->
   killOutcome h = QProcess.WaitTimedOut ->
   exists r' rest,
     stop h r = Some (tt, r', (cancelled ++ outcome :: rest)%list) /\
     m_mode r' = Mode.None /\ m_step2Queued r' = false /\
     m_activeTests r' = QMap.empty /\ m_testKeyQueue r' = [] /\
     m_currentTestKey r' = "" /\
     (QProcess.active (m_prepareUIProcess r) = false -> rest = []) /\
     (QProcess.active (m_prepareUIProcess r) = true ->
      prepareUIKillOutcome h = QProcess.WaitTimedOut -> rest = [outcomeUI])) /\
  (QProcess.active (m_process r) = false ->
   QProcess.active (m_prepareUIProcess r) = true ->
   prepareUIKillOutcome h = QProcess.WaitTimedOut ->
   stop h r = Some (tt, r, [outcomeUI])) /\
  (QProcess.active (m_process r) = false ->
   QProcess.active (m_prepareUIProcess r) = false ->
   stop h r = Some (tt, r, [])).
Proof.
  intros cancelled outcome outcomeUI.
  destruct r as [p pu mo tp ip sq ck at_ q].
  unfold cancelled, outcome, outcomeUI. clear cancelled outcome outcomeUI.
  simpl. split; [| split].
  - intros A K. unfold stop, bind, get, when. simpl. rewrite A, K. simpl.
    rewrite forEach_emit. simpl.
    destruct (QProcess.active pu) eqn:AU.
    + destruct (prepareUIKillOutcome h) as [c s o e |] eqn:KU; simpl.
      * do 2 eexists. split; [rewrite <- app_assoc; reflexivity |].
        repeat split; try discriminate.
      * do 2 eexists. split; [rewrite <- app_assoc; reflexivity |].
        repeat split; try discriminate.
    + simpl. do 2 eexists. split; [rewrite <- app_assoc; reflexivity |].
      repeat split; try discriminate.
  - intros A AU KU. unfold stop, bind, get, when. simpl.
    rewrite A. simpl. rewrite AU, KU. reflexivity.
  - intros A AU. unfold stop, bind, get, when. simpl.
    rewrite A. simpl. rewrite AU. reflexivity.
Qed.

(** C9.  An "Overall progress" line whose clause "Current folder: A/B
    frames" has B = 0 is handled without a division: the percentage of the
    folder is 0, the handler has a result, and it ends with the overall
    progress signal built from the percentage of the line itself. *)
Theorem overall_progress_zero_folder_total
        (line : string) (r : TesterRunner) (co cf : QRegExp.captures) :
  QRegExp.indexIn startingRegex line = None ->
  QRegExp.indexIn progressRegex line = None ->
  QRegExp.indexIn overallProgressRegex line = Some co ->
  QRegExp.indexIn currentFolderRegex line = Some cf ->
  QString.toInt (QRegExp.cap cf 2) = 0 ->
  let folderCurrent := QString.toInt (QRegExp.cap cf 1) in
  let overall :=
    progressUpdated (QString.toInt (QRegExp.cap co 3))
      (processingMessage (QString.toInt (QRegExp.cap co 1))
                         (QString.toInt (QRegExp.cap co 2))) in
  folderPercent folderCurrent 0 = Some 0 /\
  exists r' perTest,
    processLine line r = Some (tt, r', (perTest ++ [overall])%list) /\
    (perTest = [] \/
     exists k, perTest = [testProgressUpdated k 0 (processingMessage folderCurrent 0)]).
Proof.
  intros S P O F Z0 folderCurrent overall. split; [reflexivity |].
  unfold processLine. rewrite S, P, O.
  unfold onOverallProgress. rewrite F, Z0.
  change (folderPercent (QString.toInt (QRegExp.cap cf 1)) 0) with (Some 0).
  cbv iota. fold folderCurrent. fold overall.
  unfold bind at 1. unfold bind at 1.
  rewrite attributeProgress_eq. cbv zeta.
  destruct (QString.isEmpty (findTestKeyByFrameCount r 0)) eqn:E.
  - destruct (oldestUnknown (m_activeTests r) (m_testKeyQueue r)) as [k |].
    + destruct (QString.isEmpty k) eqn:Ek; simpl.
      * eexists. exists []. split; [reflexivity |]. now left.
      * eexists. eexists [_]. split; [reflexivity |]. right. now exists k.
    + rewrite E. simpl. eexists. exists []. split; [reflexivity |]. now left.
  - rewrite E. simpl. eexists. eexists [_]. split; [reflexivity |]. right. eauto.
Qed.


(** ** Strings *)

Module QStringFacts.
Import QString.

Lemma app_assoc (a b c : string) : (a ++ b) ++ c = a ++ b ++ c.
Proof. induction a as [| x a IH]; simpl; congruence. Qed.

Lemma app_nil_r (a : string) : a ++ "" = a.
Proof. induction a as [| x a IH]; simpl; congruence. Qed.

Lemma length_app (a b : string) :
  String.length (a ++ b) = (String.length a + String.length b)%nat.
Proof. induction a as [| x a IH]; simpl; congruence. Qed.

Lemma map_app (f : ascii -> ascii) (a b : string) :
  map f (a ++ b) = map f a ++ map f b.
Proof. induction a as [| x a IH]; simpl; congruence. Qed.

Lemma length_map (f : ascii -> ascii) (a : string) :
  String.length (map f a) = String.length a.
Proof. induction a as [| x a IH]; simpl; congruence. Qed.

Lemma map_map (f g : ascii -> ascii) (a : string) :
  map f (map g a) = map (fun c => f (g c)) a.
Proof. induction a as [| x a IH]; simpl; congruence. Qed.

Lemma map_ext (f g : ascii -> ascii) (a : string) :
  (forall c, f c = g c) -> map f a = map g a.
Proof. intros E. induction a as [| x a IH]; simpl; congruence. Qed.

Lemma normalized_idem (s : string) : normalized (normalized s) = normalized s.
Proof.
  unfold normalized, replace. rewrite map_map. apply map_ext. intros c.
  destruct (Ascii.eqb c "\") eqn:E; [reflexivity | now rewrite E].
Qed.

Lemma toLower_normalized (s : string) :
  toLower (normalized s) = normalized (toLower s).
Proof.
  unfold normalized, toLower, replace. rewrite !map_map. apply map_ext.
  intros [[] [] [] [] [] [] [] []]; reflexivity.
Qed.

Lemma startsWith_app (p t : string) : startsWith (p ++ t) p = true.
Proof.
  induction p as [| c p IH]; [reflexivity |].
  cbn [append startsWith]. now rewrite Ascii.eqb_refl.
Qed.

Lemma indexOf_range (s p : string) : indexOf s p = -1 \/ 0 <= indexOf s p.
Proof.
  induction s as [| c s IH]; simpl.
  - destruct (startsWith "" p); auto. right. lia.
  - destruct (startsWith (String c s) p); [right; lia |].
    destruct (Z.ltb_spec (indexOf s p) 0); auto. right. lia.
Qed.

Lemma indexOf_none_cons (c : ascii) (s p : string) :
  indexOf (String c s) p = -1 ->
  startsWith (String c s) p = false /\ indexOf s p = -1.
Proof.
  simpl. destruct (startsWith (String c s) p); [discriminate |].
  destruct (Z.ltb_spec (indexOf s p) 0) as [L | G]; intros H.
  - split; auto. destruct (indexOf_range s p); lia.
  - destruct (indexOf_range s p); lia.
Qed.

Lemma indexOf_cons (c : ascii) (s p : string) :
  indexOf (String c s) p =
  if startsWith (String c s) p then 0
  else if indexOf s p <? 0 then -1 else indexOf s p + 1.
Proof. reflexivity. Qed.

Lemma drop_app (a b : string) : drop (String.length a) (a ++ b) = b.
Proof. induction a as [| x a IH]; simpl; auto. Qed.

Lemma at_app (a b : string) :
  at_ (a ++ b) (Z.of_nat (String.length a)) =
  match b with
  | EmptyString => None
  | String c _ => Some c
  end.
Proof.
  unfold at_. destruct (Z.ltb_spec (Z.of_nat (String.length a)) 0) as [L | _]; [lia |].
  rewrite Nat2Z.id. induction a as [| x a IH]; simpl; [now destruct b | exact IH].
Qed.

Lemma endsWithChar_snoc (s : string) (c : ascii) :
  endsWithChar (s ++ String c "") c = true.
Proof.
  induction s as [| x s IH]; simpl; [apply Ascii.eqb_refl |].
  destruct (s ++ String c "") eqn:E; auto.
  destruct s; discriminate.
Qed.

Lemma chop1_snoc (s : string) (c : ascii) : chop1 (s ++ String c "") = s.
Proof.
  induction s as [| x s IH]; simpl; auto.
  destruct (s ++ String c "") eqn:E; [destruct s; discriminate |].
  now rewrite IH.
Qed.

End QStringFacts.

(** ** Test keys *)

Lemma slashes_snoc (n : nat) : slashes (S n) = slashes n ++ "/".
Proof. induction n as [| n IH]; simpl in *; congruence. Qed.

Lemma length_slashes (n : nat) : String.length (slashes n) = n.
Proof. induction n; simpl; congruence. Qed.

Lemma normalized_separators (s : string) :
  allSeparators s = true -> normalized s = slashes (String.length s).
Proof.
  induction s as [| c s IH]; [reflexivity |]. cbn [allSeparators].
  intros H. apply andb_true_iff in H. destruct H as [H1 H2].
  change (normalized (String c s))
    with (String (if Ascii.eqb c "\" then "/" else c) (normalized s)).
  rewrite (IH H2). cbn [String.length slashes]. f_equal. unfold isSeparator in H1.
  destruct (Ascii.eqb_spec c "\"); auto.
  destruct (Ascii.eqb_spec c "/"); [auto | discriminate].
Qed.

Lemma normalized_app (a b : string) : normalized (a ++ b) = normalized a ++ normalized b.
Proof. apply QStringFacts.map_app. Qed.

Lemma toLower_app (a b : string) :
  QString.toLower (a ++ b) = QString.toLower a ++ QString.toLower b.
Proof. apply QStringFacts.map_app. Qed.

Lemma normalized_first (s : string) :
  startsWithSeparator s = false ->
  match normalized s with
  | EmptyString => true
  | String c _ => negb (Ascii.eqb c "/")
  end = true.
Proof.
  destruct s as [| c s]; [reflexivity |]. cbn [startsWithSeparator].
  change (normalized (String c s))
    with (String (if Ascii.eqb c "\" then "/" else c) (normalized s)).
  unfold isSeparator.
  destruct (Ascii.eqb_spec c "\"); [rewrite orb_true_r; discriminate |].
  destruct (Ascii.eqb c "/"); simpl; auto.
Qed.

Lemma normalized_last (s : string) :
  endsWithSeparator s = false -> QString.endsWithChar (normalized s) "/" = false.
Proof.
  unfold endsWithSeparator. induction s as [| c s IH]; [reflexivity |].
  change (normalized (String c s))
    with (String (if Ascii.eqb c "\" then "/" else c) (normalized s)).
  destruct s as [| d s].
  - cbn. destruct (Ascii.eqb_spec c "\"); [rewrite orb_true_r; discriminate |].
    destruct (Ascii.eqb_spec c "/"); simpl; auto.
  - intros H. apply IH in H.
    change (normalized (String d s))
      with (String (if Ascii.eqb d "\" then "/" else d) (normalized s)) in *.
    exact H.
Qed.

(** A pattern at the start of [x ++ y] is at the start of [x], or [x] is a
    proper beginning of it and the rest of it is at the start of [y]. *)
Lemma startsWith_app_split (p x y : string) :
  QString.startsWith (x ++ y) p = true ->
  QString.startsWith x p = true \/
  ((String.length x < String.length p)%nat /\
   QString.startsWith y (QString.drop (String.length x) p) = true).
Proof.
  revert x. induction p as [| c p IH]; intros x; [now left |].
  destruct x as [| d x]; [intros H; right; split; [simpl; lia | exact H] |].
  cbn [append QString.startsWith String.length QString.drop].
  intros H. apply andb_true_iff in H. destruct H as [H1 H2].
  rewrite H1. destruct (IH x H2) as [L | [L R]]; [now left | right].
  split; [lia | exact R].
Qed.

(** The marker does not overlap itself: an occurrence cannot begin before
    another one and reach into it. *)
Lemma marker_no_overlap (x t : string) :
  x <> "" -> QString.startsWith x "testsets_results" = false ->
  QString.startsWith (x ++ "testsets_results" ++ t) "testsets_results" = false.
Proof.
  intros NE H.
  destruct (QString.startsWith (x ++ "testsets_results" ++ t) "testsets_results")
    eqn:E; [| reflexivity].
  apply startsWith_app_split in E. destruct E as [E | [L E]]; [congruence |].
  destruct x as [| c x]; [congruence |]. exfalso.
  cbn [String.length] in L, E. revert L E.
  generalize (String.length x) as n. intros n L.
  do 15 (destruct n as [| n]; [cbn; discriminate |]).
  cbn in L. lia.
Qed.

Lemma indexOf_marker (a t : string) :
  QString.indexOf a "testsets_results" = -1 ->
  QString.indexOf (a ++ "testsets_results" ++ t) "testsets_results" =
  Z.of_nat (String.length a).
Proof.
  induction a as [| c a IH]; intros H.
  - change ("" ++ "testsets_results" ++ t)
      with (String "t" ("estsets_results" ++ t)).
    rewrite QStringFacts.indexOf_cons.
    change (String "t" ("estsets_results" ++ t)) with ("testsets_results" ++ t).
    now rewrite QStringFacts.startsWith_app.
  - apply QStringFacts.indexOf_none_cons in H. destruct H as [H1 H2].
    change (String c a ++ "testsets_results" ++ t)
      with (String c (a ++ "testsets_results" ++ t)) at 1.
    rewrite QStringFacts.indexOf_cons.
    change (String c (a ++ "testsets_results" ++ t))
      with (String c a ++ "testsets_results" ++ t).
    rewrite marker_no_overlap by (auto; discriminate).
    rewrite (IH H2).
    destruct (Z.ltb_spec (Z.of_nat (String.length a)) 0); [lia |].
    cbn [String.length]. lia.
Qed.

Lemma skipSlashes_run (n fuel : nat) (a b : string) :
  (n <= fuel)%nat ->
  match b with
  | EmptyString => true
  | String c _ => negb (Ascii.eqb c "/")
  end = true ->
  skipSlashes fuel (a ++ slashes n ++ b) (Z.of_nat (String.length a)) =
  Z.of_nat (String.length a + n).
Proof.
  revert fuel a. induction n as [| n IH]; intros fuel a L B.
  - cbn [slashes append]. rewrite Nat.add_0_r.
    destruct fuel as [| fuel]; [reflexivity |]. cbn [skipSlashes].
    rewrite QStringFacts.at_app. destruct b as [| c b].
    + now rewrite andb_false_r.
    + apply negb_true_iff in B. rewrite B. now rewrite andb_false_r.
  - destruct fuel as [| fuel]; [lia |]. cbn [skipSlashes slashes append].
    rewrite QStringFacts.at_app. rewrite Ascii.eqb_refl.
    unfold QString.size. rewrite QStringFacts.length_app. cbn [String.length].
    destruct (Z.ltb_spec (Z.of_nat (String.length a))
                (Z.of_nat (String.length a + S (String.length (slashes n ++ b)))));
      [| lia].
    cbn [andb].
    replace (a ++ String "/" (slashes n ++ b)) with ((a ++ "/") ++ slashes n ++ b)
      by (rewrite QStringFacts.app_assoc; reflexivity).
    replace (Z.of_nat (String.length a) + 1)
      with (Z.of_nat (String.length (a ++ "/")))
      by (rewrite QStringFacts.length_app; cbn [String.length]; lia).
    rewrite IH by (auto; lia).
    rewrite QStringFacts.length_app. cbn [String.length]. f_equal. lia.
Qed.

Lemma chopSlashes_run (n fuel : nat) (k : string) :
  (n <= fuel)%nat -> QString.endsWithChar k "/" = false ->
  chopSlashes fuel (k ++ slashes n) = k.
Proof.
  revert fuel. induction n as [| n IH]; intros fuel L E.
  - cbn [slashes]. rewrite QStringFacts.app_nil_r.
    destruct fuel; [reflexivity |]. cbn [chopSlashes]. now rewrite E.
  - destruct fuel as [| fuel]; [lia |].
    rewrite slashes_snoc, <- QStringFacts.app_assoc. cbn [chopSlashes].
    rewrite QStringFacts.endsWithChar_snoc, QStringFacts.chop1_snoc.
    apply IH; auto. lia.
Qed.

(** What the function returns for a path with the marker: the text after
    the marker and the slashes that follow it, with the slashes at the end
    removed. *)
Lemma extractTestKeyFromPath_after_marker (pre m seps tail : string) :
  QString.indexOf (QString.toLower (normalized pre)) "testsets_results" = -1 ->
  QString.toLower m = "testsets_results" ->
  allSeparators seps = true ->
  startsWithSeparator tail = false ->
  extractTestKeyFromPath (pre ++ m ++ seps ++ tail) =
  normalized (chopSlashes (String.length (normalized tail)) (normalized tail)).
Proof.
  intros Hpre Hm Hseps Htail.
  unfold extractTestKeyFromPath. fold (normalized (pre ++ m ++ seps ++ tail)).
  set (N := normalized (pre ++ m ++ seps ++ tail)).
  assert (EN : N = normalized pre ++ normalized m ++
                   slashes (String.length seps) ++ normalized tail).
  { unfold N. rewrite !normalized_app. now rewrite (normalized_separators seps). }
  assert (Lm : String.length (normalized m) = 16%nat).
  { unfold normalized, QString.replace. rewrite QStringFacts.length_map.
    rewrite <- (QStringFacts.length_map QString.toLowerChar).
    fold (QString.toLower m). now rewrite Hm. }
  assert (EL : QString.toLower N =
               QString.toLower (normalized pre) ++ "testsets_results" ++
               QString.toLower (slashes (String.length seps) ++ normalized tail)).
  { rewrite EN, !toLower_app. rewrite (QStringFacts.toLower_normalized m), Hm.
    reflexivity. }
  assert (I : QString.indexOf (QString.toLower N) "testsets_results" =
              Z.of_nat (String.length (normalized pre))).
  { rewrite EL, indexOf_marker by exact Hpre.
    unfold QString.toLower. now rewrite QStringFacts.length_map. }
  unfold QString.indexOfCI.
  change (QString.toLower resultsMarker) with "testsets_results".
  rewrite I.
  destruct (Z.geb_spec (Z.of_nat (String.length (normalized pre))) 0) as [_ | L];
    [| lia].
  change (QString.size resultsMarker) with 16.
  set (A := normalized pre ++ normalized m).
  assert (EA : N = A ++ slashes (String.length seps) ++ normalized tail).
  { rewrite EN. unfold A. now rewrite QStringFacts.app_assoc. }
  assert (LA : Z.of_nat (String.length (normalized pre)) + 16 =
               Z.of_nat (String.length A)).
  { unfold A. rewrite QStringFacts.length_app, Lm. lia. }
  rewrite LA.
  assert (SK : skipSlashes (S (String.length N)) N (Z.of_nat (String.length A)) =
               Z.of_nat (String.length (A ++ slashes (String.length seps)))).
  { pose proof (skipSlashes_run (String.length seps) (S (String.length N)) A
                  (normalized tail)) as SK.
    rewrite <- EA in SK. rewrite SK.
    - now rewrite QStringFacts.length_app, length_slashes.
    - rewrite EA, !QStringFacts.length_app, length_slashes. lia.
    - now apply normalized_first. }
  rewrite SK. unfold QString.mid. rewrite Nat2Z.id.
  replace N with ((A ++ slashes (String.length seps)) ++ normalized tail)
    by (rewrite EA; apply QStringFacts.app_assoc).
  rewrite QStringFacts.drop_app. reflexivity.
Qed.

Lemma chopSlashes_none (fuel : nat) (s : string) :
  QString.endsWithChar s "/" = false -> chopSlashes fuel s = s.
Proof. intros E. destruct fuel; simpl; [reflexivity | now rewrite E]. Qed.

Lemma startsWithSeparator_app (key rest : string) :
  key <> "" -> startsWithSeparator key = false ->
  startsWithSeparator (key ++ rest) = false.
Proof. destruct key; simpl; congruence. Qed.

(** C4, as amended.  For a folder path whose first occurrence of the marker
    testSets_results, in any letter case, is followed by separators, then a
    key such as Cat/Ev/Set/F0007, then [rest]: the test key is all of the
    path after the marker and its separators, with slashes for backslashes
    and without the slashes at the end.  It is the key alone exactly when
    [rest] is empty or made of separators; a [rest] that names further
    folders is part of the result. *)
Theorem extractTestKeyFromPath_marker (pre m seps key rest : string) :
  QString.indexOf (QString.toLower (normalized pre)) "testsets_results" = -1 ->
  QString.toLower m = "testsets_results" ->
  allSeparators seps = true ->
  key <> "" -> startsWithSeparator key = false -> endsWithSeparator key = false ->
  let tail := normalized (key ++ rest) in
  extractTestKeyFromPath (pre ++ m ++ seps ++ key ++ rest) =
    normalized (chopSlashes (String.length tail) tail) /\
  (allSeparators rest = true ->
   extractTestKeyFromPath (pre ++ m ++ seps ++ key ++ rest) = normalized key) /\
  (endsWithSeparator (key ++ rest) = false ->
   extractTestKeyFromPath (pre ++ m ++ seps ++ key ++ rest) =
     normalized (key ++ rest)).
Proof.
  intros Hpre Hm Hseps NE Hfirst Hlast tail.
  assert (E : extractTestKeyFromPath (pre ++ m ++ seps ++ key ++ rest) =
              normalized (chopSlashes (String.length tail) tail)).
  { apply extractTestKeyFromPath_after_marker; auto.
    now apply startsWithSeparator_app. }
  split; [exact E |]. split.
  - intros Hrest. rewrite E. unfold tail.
    rewrite normalized_app, (normalized_separators rest Hrest).
    rewrite chopSlashes_run.
    + apply QStringFacts.normalized_idem.
    + rewrite QStringFacts.length_app, length_slashes. lia.
    + now apply normalized_last.
  - intros Hend. rewrite E. unfold tail.
    rewrite chopSlashes_none by now apply normalized_last.
    apply QStringFacts.normalized_idem.
Qed.

(** ** Checking [tracked] by computation *)

Lemma okb_ok (m : QMap.t) : okb m = true -> QMap.ok m.
Proof.
  induction m as [| [k v] m IH]; simpl; auto.
  intros H. apply andb_true_iff in H. destruct H as [H1 H2]. split; auto.
  apply Forall_forall. intros kv I.
  rewrite forallb_forall in H1. specialize (H1 kv I).
  destruct (String_as_OT.compare k (fst kv)); congruence.
Qed.

Lemma contains_keys (m : QMap.t) (k : string) :
  QMap.contains m k = true -> In k (QMap.keys m).
Proof.
  unfold QMap.contains. intros H.
  destruct (QMap.find k m) as [v |] eqn:F; [| discriminate].
  apply QMapFacts.find_In in F. unfold QMap.keys.
  change k with (fst (k, v)). now apply in_map.
Qed.

Lemma trackedb_tracked (r : TesterRunner) : trackedb r = true -> tracked r.
Proof.
  unfold trackedb. intros H.
  apply andb_true_iff in H. destruct H as [H H3].
  apply andb_true_iff in H. destruct H as [H1 H2].
  split.
  - now apply okb_ok.
  - intros k C. apply contains_keys in C.
    rewrite forallb_forall in H2. apply containsKey_In. auto.
  - now apply negb_true_iff.
Qed.

Lemma no_known_total (r : TesterRunner) (total : Z) :
  forallb (fun kv => negb (snd kv =? total)) (m_activeTests r) = true ->
  forall k n, activeWith r k n -> 0 < n -> n <> total.
Proof.
  intros H k n [C V] _. unfold QMap.contains, QMap.value in *.
  destruct (QMap.find k (m_activeTests r)) as [v |] eqn:F; [| discriminate].
  apply QMapFacts.find_In in F. rewrite forallb_forall in H.
  specialize (H _ F). simpl in H. apply negb_true_iff in H.
  subst v. now apply Z.eqb_neq.
Qed.

(** ** What the handlers keep true *)

Section Preservation.
Variable Inv : TesterRunner -> Prop.

Lemma preserves_ret {A : Type} (a : A) : preserves Inv (ret a).
Proof. intros r a' r' e T H. inversion H; now subst. Qed.

Lemma preserves_emit (s : Signal) : preserves Inv (emit s).
Proof. intros r a' r' e T H. inversion H; now subst. Qed.

Lemma preserves_undefined {A : Type} : preserves Inv (@undefined A).
Proof. intros r a' r' e T H. discriminate. Qed.

Lemma preserves_modify (f : TesterRunner -> TesterRunner) :
  (forall r, Inv r -> Inv (f r)) -> preserves Inv (modify f).
Proof. intros F r a' r' e T H. inversion H; subst. auto. Qed.

Lemma preserves_bind {A B : Type} (c : Run A) (f : A -> Run B) :
  preserves Inv c -> (forall a, preserves Inv (f a)) -> preserves Inv (bind c f).
Proof.
  intros Pc Pf r b r' e T H. unfold bind in H.
  destruct (c r) as [[[a r1] e1] |] eqn:C; [| discriminate].
  destruct (f a r1) as [[[b' r2] e2] |] eqn:F; [| discriminate].
  inversion H; subst. exact (Pf a r1 b r' e2 (Pc r a r1 e1 T C) F).
Qed.

Lemma preserves_when (b : bool) (c : Run unit) :
  preserves Inv c -> preserves Inv (when b c).
Proof. destruct b; simpl; auto using preserves_ret. Qed.

Lemma preserves_forEach {A : Type} (l : list A) (body : A -> Run unit) :
  (forall x, preserves Inv (body x)) -> preserves Inv (forEach l body).
Proof.
  intros Pb. induction l; simpl; auto using preserves_ret, preserves_bind.
Qed.

(** A computation that reads the runner first. *)
Lemma preserves_reading {A : Type} (f : TesterRunner -> Run A) :
  (forall r a r' e, Inv r -> f r r = Some (a, r', e) -> Inv r') ->
  preserves Inv (bind get f).
Proof.
  intros Pf r a r' e T H. unfold bind, get in H.
  destruct (f r r) as [[[a' r2] e2] |] eqn:F; [| discriminate].
  inversion H; subst. exact (Pf _ _ _ _ T F).
Qed.

(** The updates of the tracking members that the handlers are made of. *)
Hypothesis Inv_register : forall r k, k <> "" -> Inv r -> Inv (register k r).
Hypothesis Inv_assign : forall r k total,
    findTestKeyByFrameCount r total = "" ->
    oldestUnknown (m_activeTests r) (m_testKeyQueue r) = Some k ->
    Inv r -> Inv (set_activeTests (QMap.insert k total (m_activeTests r)) r).
Hypothesis Inv_remove : forall r k,
    Inv r -> Inv (set_activeTests (QMap.remove k (m_activeTests r)) r).
Hypothesis Inv_dequeue : forall r k,
    QMap.contains (m_activeTests r) k = false ->
    Inv r -> Inv (set_testKeyQueue (removeFirst k (m_testKeyQueue r)) r).
Hypothesis Inv_current : forall r k, Inv r -> Inv (set_currentTestKey k r).

Lemma attributeProgress_preserves (total : Z) :
  preserves Inv (attributeProgress total).
Proof.
  intros r k r' e T. rewrite attributeProgress_eq. cbv zeta.
  destruct (QString.isEmpty (findTestKeyByFrameCount r total)) eqn:E.
  - apply isEmpty_true in E.
    destruct (oldestUnknown (m_activeTests r) (m_testKeyQueue r)) as [qk |] eqn:F;
      intros H; inversion H; subst; auto.
  - intros H; inversion H; now subst.
Qed.

Lemma onStartingComparison_preserves (folderPath : string) :
  preserves Inv (onStartingComparison folderPath).
Proof.
  unfold onStartingComparison.
  destruct (QString.isEmpty (extractTestKeyFromPath folderPath)) eqn:E; simpl;
    [apply preserves_ret |].
  apply isEmpty_false in E.
  apply preserves_bind; [| intros; apply preserves_emit].
  apply preserves_modify. intros r. now apply Inv_register.
Qed.

Lemma onProgress_preserves (current total percent : Z) :
  preserves Inv (onProgress current total percent).
Proof.
  unfold onProgress.
  apply preserves_bind; [apply attributeProgress_preserves |]. intros k.
  apply preserves_bind; intros;
    auto using preserves_when, preserves_emit.
Qed.

Lemma onOverallProgress_preserves (line : string) (current total percent : Z) :
  preserves Inv (onOverallProgress line current total percent).
Proof.
  unfold onOverallProgress.
  apply preserves_bind; [| intros; apply preserves_emit].
  destruct (QRegExp.indexIn currentFolderRegex line) as [cs |];
    [| apply preserves_ret].
  destruct (folderPercent _ _); [| apply preserves_undefined].
  apply preserves_bind; [apply attributeProgress_preserves |]. intros k.
  auto using preserves_when, preserves_emit.
Qed.

Lemma onCompleted_preserves (folderPath : string) :
  preserves Inv (onCompleted folderPath).
Proof.
  unfold onCompleted. apply preserves_reading. intros r a r' e T H.
  destruct (QString.isEmpty (extractTestKeyFromPath folderPath)); simpl in H.
  - destruct (QString.isEmpty (m_currentTestKey r)); simpl in H.
    + inversion H; now subst.
    + inversion H; subst. apply Inv_current. now apply Inv_remove.
  - inversion H; subst. clear H.
    set (k := extractTestKeyFromPath folderPath).
    assert (T' : Inv (set_testKeyQueue (removeFirst k (m_testKeyQueue r))
                        (set_activeTests (QMap.remove k (m_activeTests r)) r))).
    { apply (Inv_dequeue (set_activeTests (QMap.remove k (m_activeTests r)) r));
        [| now apply Inv_remove].
      simpl. now rewrite QMapFacts.contains_remove, String.eqb_refl. }
    simpl. destruct (String.eqb (m_currentTestKey r) k); auto.
Qed.

Lemma onFrameComparisonCompleted_preserves (line : string) :
  preserves Inv (onFrameComparisonCompleted line).
Proof.
  unfold onFrameComparisonCompleted.
  apply preserves_when, preserves_reading. intros r a r' e T H.
  destruct (QString.isEmpty (m_currentTestKey r)); simpl in H;
    inversion H; subst; auto.
Qed.

Lemma processLine_preserves (line : string) : preserves Inv (processLine line).
Proof.
  unfold processLine.
  destruct (QRegExp.indexIn startingRegex line);
    [apply onStartingComparison_preserves |].
  destruct (QRegExp.indexIn progressRegex line);
    [apply onProgress_preserves |].
  destruct (QRegExp.indexIn overallProgressRegex line);
    [apply onOverallProgress_preserves |].
  destruct (QRegExp.indexIn completedRegex line);
    [apply onCompleted_preserves |].
  apply preserves_bind; [apply onFrameComparisonCompleted_preserves |]. intros _.
  apply preserves_bind; intros; unfold onPhaseCompleted, onAllCompleted;
    apply preserves_when; try apply preserves_emit.
  destruct (QRegExp.indexIn phaseRegex line);
    [apply preserves_emit | apply preserves_ret].
Qed.

Lemma onReadyReadStandardOutput_preserves (output : string) :
  preserves Inv (onReadyReadStandardOutput output).
Proof.
  unfold onReadyReadStandardOutput, emitOutputLines.
  apply preserves_bind; intros; apply preserves_forEach; intros;
    auto using processLine_preserves, preserves_when, preserves_emit.
Qed.
End Preservation.

(** *** The tracking members stay well formed *)

Lemma tracked_new : tracked newRunner.
Proof. split; simpl; auto. intros k H. discriminate. Qed.

Lemma tracked_clear (r : TesterRunner) : tracked (clearTracking r).
Proof. split; simpl; auto. intros k H. discriminate. Qed.

Lemma tracked_register (r : TesterRunner) (k : string) :
  k <> "" -> tracked r -> tracked (register k r).
Proof.
  intros NE [O Q N]. split; simpl.
  - now apply QMapFacts.ok_insert.
  - intros k'. rewrite QMapFacts.contains_insert, in_app_iff.
    destruct (String.eqb_spec k k'); simpl; subst; auto.
  - rewrite QMapFacts.contains_insert, N.
    apply String.eqb_neq in NE. now rewrite NE.
Qed.

Lemma tracked_assign (r : TesterRunner) (k : string) (total : Z) :
  findTestKeyByFrameCount r total = "" ->
  oldestUnknown (m_activeTests r) (m_testKeyQueue r) = Some k ->
  tracked r ->
  tracked (set_activeTests (QMap.insert k total (m_activeTests r)) r).
Proof.
  intros _ F [O Q N]. apply oldestUnknown_some in F. destruct F as [_ [C _]].
  split; simpl.
  - now apply QMapFacts.ok_insert.
  - intros k'. rewrite QMapFacts.contains_insert.
    destruct (String.eqb_spec k k'); simpl; subst; auto.
  - rewrite QMapFacts.contains_insert, N.
    destruct (String.eqb_spec k ""); auto. subst. congruence.
Qed.

Lemma tracked_remove (r : TesterRunner) (k : string) :
  tracked r -> tracked (set_activeTests (QMap.remove k (m_activeTests r)) r).
Proof.
  intros [O Q N]. split; simpl.
  - now apply QMapFacts.ok_remove.
  - intros k'. rewrite QMapFacts.contains_remove.
    intros H. apply andb_true_iff in H. apply Q, H.
  - rewrite QMapFacts.contains_remove, N. apply andb_false_r.
Qed.

Lemma In_removeFirst (q : list string) (k k' : string) :
  k <> k' -> In k' q -> In k' (removeFirst k q).
Proof.
  intros NE. induction q as [| x q IH]; simpl; auto.
  destruct (String.eqb_spec x k); intros [E | I]; subst; simpl; auto.
  congruence.
Qed.

Lemma tracked_dequeue (r : TesterRunner) (k : string) :
  QMap.contains (m_activeTests r) k = false -> tracked r ->
  tracked (set_testKeyQueue (removeFirst k (m_testKeyQueue r)) r).
Proof.
  intros C [O Q N]. split; simpl; auto.
  intros k' C'. apply In_removeFirst; auto. congruence.
Qed.

Lemma tracked_current (r : TesterRunner) (k : string) :
  tracked r -> tracked (set_currentTestKey k r).
Proof. intros [O Q N]. now split. Qed.

(** Whatever the tool prints, the map stays a map, every active test has a
    place in the queue, and the empty key is never active. *)
Lemma onReadyReadStandardOutput_tracked (output : string) :
  preserves tracked (onReadyReadStandardOutput output).
Proof.
  apply onReadyReadStandardOutput_preserves;
    auto using tracked_register, tracked_assign, tracked_remove,
               tracked_dequeue, tracked_current.
Qed.

(** *** Known frame counts are distinct *)

Lemma tracked_no_match (r : TesterRunner) (total : Z) :
  tracked r -> findTestKeyByFrameCount r total = "" ->
  matchingKeys (m_activeTests r) total = [].
Proof.
  intros T E.
  destruct (matchingKeys (m_activeTests r) total) as [| k ks] eqn:M; auto.
  assert (NE : matchingKeys (m_activeTests r) total <> [])
    by (rewrite M; discriminate).
  apply findTestKeyByFrameCount_matching in NE. rewrite E in NE.
  apply matchingKeys_In in NE. destruct NE as [I _].
  apply In_contains in I. rewrite (tracked_nonempty r T) in I. discriminate.
Qed.

Lemma wellTracked_new : wellTracked newRunner.
Proof.
  split; [apply tracked_new |]. intros k1 k2 n _ [C _]. discriminate.
Qed.

Lemma wellTracked_register (r : TesterRunner) (k : string) :
  k <> "" -> wellTracked r -> wellTracked (register k r).
Proof.
  intros NE [T D]. split; [now apply tracked_register |].
  assert (Old : forall k' n, 0 < n -> activeWith (register k r) k' n ->
                             activeWith r k' n).
  { intros k' n L [C V]. simpl in C, V.
    destruct (String.eqb_spec k k') as [E | N].
    - subst k'. rewrite QMapFacts.value_insert_eq in V. lia.
    - rewrite QMapFacts.contains_insert in C.
      rewrite QMapFacts.value_insert_neq in V by assumption.
      apply String.eqb_neq in N. rewrite N in C. now split. }
  intros k1 k2 n L A1 A2. eauto.
Qed.

Lemma wellTracked_assign (r : TesterRunner) (k : string) (total : Z) :
  findTestKeyByFrameCount r total = "" ->
  oldestUnknown (m_activeTests r) (m_testKeyQueue r) = Some k ->
  wellTracked r ->
  wellTracked (set_activeTests (QMap.insert k total (m_activeTests r)) r).
Proof.
  intros E F [T D]. split; [now apply tracked_assign |].
  pose proof (tracked_no_match r total T E) as M.
  assert (Old : forall k' n, activeWith
                  (set_activeTests (QMap.insert k total (m_activeTests r)) r) k' n ->
                  k' <> k -> activeWith r k' n).
  { intros k' n [C V] N. simpl in C, V.
    rewrite QMapFacts.contains_insert in C.
    rewrite QMapFacts.value_insert_neq in V by congruence.
    assert (N' : k <> k') by congruence.
    apply String.eqb_neq in N'. rewrite N' in C. now split. }
  assert (New : forall k' n, 0 < n -> activeWith
                  (set_activeTests (QMap.insert k total (m_activeTests r)) r) k' n ->
                  n = total -> k' = k).
  { intros k' n L A En. destruct (String.eqb_spec k' k) as [| N]; auto.
    apply Old in A; auto. subst n.
    assert (I : In k' (matchingKeys (m_activeTests r) total))
      by (apply matchingKeys_active; [apply T | auto]).
    rewrite M in I. destruct I. }
  intros k1 k2 n L A1 A2.
  destruct (Z.eq_dec n total) as [En | Nn].
  - rewrite (New k1 n L A1 En), (New k2 n L A2 En). reflexivity.
  - assert (N1 : k1 <> k).
    { intros ->. destruct A1 as [_ V]. simpl in V.
      rewrite QMapFacts.value_insert_eq in V. congruence. }
    assert (N2 : k2 <> k).
    { intros ->. destruct A2 as [_ V]. simpl in V.
      rewrite QMapFacts.value_insert_eq in V. congruence. }
    eauto.
Qed.

Lemma wellTracked_remove (r : TesterRunner) (k : string) :
  wellTracked r ->
  wellTracked (set_activeTests (QMap.remove k (m_activeTests r)) r).
Proof.
  intros [T D]. split; [now apply tracked_remove |].
  assert (Old : forall k' n, activeWith
                  (set_activeTests (QMap.remove k (m_activeTests r)) r) k' n ->
                  activeWith r k' n).
  { intros k' n [C V]. simpl in C, V.
    rewrite QMapFacts.contains_remove in C. apply andb_true_iff in C.
    destruct C as [N C]. apply negb_true_iff, String.eqb_neq in N.
    unfold QMap.value in V. rewrite QMapFacts.find_remove_neq in V by assumption.
    now split. }
  intros k1 k2 n L A1 A2. eauto.
Qed.

Lemma wellTracked_clear (r : TesterRunner) :
  wellTracked r -> wellTracked (clearTracking r).
Proof.
  intros _. split; [apply tracked_clear |]. intros k1 k2 n _ [C _]. discriminate.
Qed.

(** From a fresh runner, whatever the tool prints, no two active tests get
    the same known frame count: a progress line is matched by frame count
    to at most one test. *)
Lemma onReadyReadStandardOutput_wellTracked (output : string) :
  preserves wellTracked (onReadyReadStandardOutput output).
Proof.
  apply onReadyReadStandardOutput_preserves.
  - intros r k NE W. now apply wellTracked_register.
  - intros r k total E F W. now apply wellTracked_assign.
  - intros r k W. now apply wellTracked_remove.
  - intros r k C [T D]. split; [now apply tracked_dequeue | exact D].
  - intros r k [T D]. split; [now apply tracked_current | exact D].
Qed.

(** ** The theorems at concrete inputs *)

(** Two tests announced one after the other: the first total goes to the
    first test, the second total to the second, and a later line with the
    first total is matched to the first test by its frame count. *)
Lemma two_tests_in_start_order :
  filter isTestProgress (signals (onReadyReadStandardOutput twoTestsOutput newRunner)) =
  [testProgressUpdated "Cat/Ev/Set/F0001" 0 "Starting...";
   testProgressUpdated "Cat/Ev/Set/F0002" 0 "Starting...";
   testProgressUpdated "Cat/Ev/Set/F0001" 2 "Processing: 5/200 frames";
   testProgressUpdated "Cat/Ev/Set/F0002" 1 "Processing: 3/300 frames";
   testProgressUpdated "Cat/Ev/Set/F0001" 50 "Processing: 100/200 frames"] /\
  option_map m_activeTests (stateAfter (onReadyReadStandardOutput twoTestsOutput)) =
  Some [("Cat/Ev/Set/F0001", 200); ("Cat/Ev/Set/F0002", 300)].
Proof. vm_compute. split; reflexivity. Qed.

(** Two tests of 50 frames each: the one started last is found. *)
Lemma findTestKeyByFrameCount_most_recent_witness :
  let r := tracking [(keyA, 50); (keyB, 50)] [keyA; keyB] in
  findTestKeyByFrameCount r 50 = keyB /\
  activeWith r (findTestKeyByFrameCount r 50) 50 /\
  exists i, lastStart (m_testKeyQueue r) (findTestKeyByFrameCount r 50) = Some i /\
            forall k j, activeWith r k 50 ->
                        lastStart (m_testKeyQueue r) k = Some j -> (j <= i)%nat.
Proof.
  intros r. split; [vm_compute; reflexivity |].
  apply (findTestKeyByFrameCount_most_recent r 50 keyA keyB).
  - apply trackedb_tracked. vm_compute. reflexivity.
  - lia.
  - vm_compute. discriminate.
  - split; vm_compute; reflexivity.
  - split; vm_compute; reflexivity.
Defined.

(** Two tests of unknown size, then a line with 200 frames. *)
Lemma attributeProgress_oldest_unknown_witness :
  let r := tracking [(keyA, 0); (keyB, 0)] [keyA; keyB] in
  exists k,
    let r' := set_activeTests (QMap.insert k 200 (m_activeTests r)) r in
    attributeProgress 200 r = Some (k, r', []) /\
    (forall current percent,
        onProgress current 200 percent r =
        Some (tt, r', [testProgressUpdated k percent (processingMessage current 200);
                       progressUpdated percent (processingMessage current 200)])) /\
    activeWith r k 0 /\
    (exists i, firstStart (m_testKeyQueue r) k = Some i /\
               forall k' j, activeWith r k' 0 ->
                            firstStart (m_testKeyQueue r) k' = Some j -> (i <= j)%nat) /\
    activeWith r' k 200 /\
    attributeProgress 200 r' = Some (k, r', []) /\
    (0 < 200 -> findTestKeyByFrameCount r' 200 = k) /\
    (200 = 0 -> findTestKeyByFrameCount r' 200 = "").
Proof.
  intros r.
  apply (attributeProgress_oldest_unknown r 200 keyB).
  - apply trackedb_tracked. vm_compute. reflexivity.
  - apply no_known_total. vm_compute. reflexivity.
  - split; vm_compute; reflexivity.
  - lia.
Defined.

(** C2 as stated fails for a total of 0, which the tool prints for an empty
    folder and which [toInt] gives for a number that does not fit an int:
    the line goes to the oldest test of unknown size, whose frame count
    stays 0, and a frame count of 0 is never matched by frame count. *)
Lemma attributeProgress_zero_total_not_matched :
  let r := tracking [(keyA, 0)] [keyA] in
  matchingKeys (m_activeTests r) 0 = [] /\
  activeWith r keyA 0 /\
  attributeProgress 0 r = Some (keyA, r, []) /\
  findTestKeyByFrameCount r 0 = "".
Proof. vm_compute. repeat split. Qed.

(** A test that has got its frame count is announced again. *)
Lemma onStartingComparison_again_witness :
  let r := tracking [("Cat/Ev/Set/F0007", 50)] ["Cat/Ev/Set/F0007"] in
  let k := extractTestKeyFromPath pathF0007 in
  exists r',
    onStartingComparison pathF0007 r =
      Some (tt, r', [testProgressUpdated k 0 "Starting..."]) /\
    QMap.keys (m_activeTests r') = QMap.keys (m_activeTests r) /\
    QMap.value (m_activeTests r') k = 0 /\
    (forall k', k' <> k ->
                QMap.value (m_activeTests r') k' = QMap.value (m_activeTests r) k') /\
    m_testKeyQueue r' = (m_testKeyQueue r ++ [k])%list /\
    firstStart (m_testKeyQueue r') k = firstStart (m_testKeyQueue r) k /\
    lastStart (m_testKeyQueue r') k = Some (List.length (m_testKeyQueue r)) /\
    (QMap.value (m_activeTests r) k = 0 -> m_activeTests r' = m_activeTests r).
Proof.
  intros r.
  apply (onStartingComparison_again r pathF0007).
  - apply trackedb_tracked. vm_compute. reflexivity.
  - vm_compute. discriminate.
  - vm_compute. reflexivity.
Defined.

(** C3 as stated fails: the second announcement of a test of 50 frames
    sets its frame count back to 0 and puts it in the queue a second
    time. *)
Lemma onStartingComparison_again_resets :
  let r := tracking [("Cat/Ev/Set/F0007", 50)] ["Cat/Ev/Set/F0007"] in
  exists r',
    onStartingComparison pathF0007 r =
      Some (tt, r', [testProgressUpdated "Cat/Ev/Set/F0007" 0 "Starting..."]) /\
    QMap.value (m_activeTests r) "Cat/Ev/Set/F0007" = 50 /\
    QMap.value (m_activeTests r') "Cat/Ev/Set/F0007" = 0 /\
    m_testKeyQueue r = ["Cat/Ev/Set/F0007"] /\
    m_testKeyQueue r' = ["Cat/Ev/Set/F0007"; "Cat/Ev/Set/F0007"] /\
    lastStart (m_testKeyQueue r) "Cat/Ev/Set/F0007" = Some 0%nat /\
    lastStart (m_testKeyQueue r') "Cat/Ev/Set/F0007" = Some 1%nat.
Proof. intros r. eexists. vm_compute. repeat split. Qed.

(** A Windows path with the marker in another letter case, separators of
    both kinds, and only a slash after the key. *)
Lemma extractTestKeyFromPath_marker_witness :
  extractTestKeyFromPath "C:\results\TestSets_Results\Cat/Ev/Set/F0007/" =
    "Cat/Ev/Set/F0007".
Proof.
  refine (proj1 (proj2 (extractTestKeyFromPath_marker
            "C:\results\" "TestSets_Results" "\" "Cat/Ev/Set/F0007" "/"
            _ _ _ _ _ _)) _);
    vm_compute; first [reflexivity | discriminate].
Defined.

(** C4 as stated fails: folders after the key stay in the test key. *)
Lemma extractTestKeyFromPath_keeps_rest :
  extractTestKeyFromPath "C:/results/testSets_results/Cat/Ev/Set/F0007/rest" =
    "Cat/Ev/Set/F0007/rest" /\
  extractTestKeyFromPath "C:/results/testSets_results/Cat/Ev/Set/F0007/rest" <>
    "Cat/Ev/Set/F0007".
Proof. split; vm_compute; [reflexivity | discriminate]. Qed.

Lemma chained_first_exit_witness :
  exists r1,
    processFinished goodHost 0 QProcess.NormalExit "" "" firstPhase =
      Some (tt, r1, [progressUpdated 100 "Processing completed"]) /\
    m_mode r1 = Mode.CompareThenPrepare /\
    m_step2Queued r1 = true /\
    QProcess.state (m_process r1) = QProcess.Running /\
    QProcess.program (m_process r1) = "python" /\
    last (QProcess.arguments (m_process r1)) "" = "prepare-ui" /\
    forall h' exitCode' exitStatus' stdOut' stdErr',
    exists r2,
      processFinished h' exitCode' exitStatus' stdOut' stdErr' r1 =
        Some (tt, r2,
              [progressUpdated 100 "Processing completed";
               runFinished (QProcess.exitedCleanly exitStatus' exitCode')
                           "compare+prepare" exitCode' stdOut' stdErr']) /\
      m_mode r2 = Mode.None /\ m_step2Queued r2 = false.
Proof.
  apply (chained_first_exit_starts_second_phase
           goodHost firstPhase 0 QProcess.NormalExit "" "").
  - reflexivity.
  - reflexivity.
  - split; [right; right; vm_compute; discriminate | reflexivity].
Defined.



(** Two active tests while a run of all phases is stopped. *)
Lemma stop_cancels_running_witness :
  let r := running Mode.All (tracking [(keyA, 0); (keyB, 0)] [keyA; keyB]) in
  signals (stop goodHost r) =
  [testProgressUpdated keyA (-1) "Cancelled";
   testProgressUpdated keyB (-1) "Cancelled";
   runFinished false "all" (-1) "" "Operation cancelled by user"].
Proof.
  intros r.
  destruct (proj1 (stop_cancels_running goodHost r) eq_refl eq_refl)
    as [r' [rest [H [_ [_ [_ [_ [_ [E _]]]]]]]]].
  rewrite H, (E eq_refl). vm_compute. reflexivity.
Defined.

(** C8, at the failing input.  A run of all phases with two active tests
    is stopped, and the killed process ends within the wait of [stop].  Its
    [finished] slot runs inside the wait: it clears the map, so that the
    loop of [stop] finds no test and no "Cancelled" signal is emitted, and
    it reports the run, so that the cancellation is a second runFinished,
    labelled "unknown" because the mode was reset before it. *)
Theorem stop_ordinary_kill_cancels_no_test :
  let h := hostWith true QProcess.Started
             (QProcess.Finished 9 QProcess.CrashExit "" "") QProcess.WaitTimedOut in
  let r := running Mode.All (tracking [(keyA, 0); (keyB, 0)] [keyA; keyB]) in
  QMap.keys (m_activeTests r) = [keyA; keyB] /\
  signals (stop h r) =
    [progressUpdated 100 "Processing completed";
     runFinished false "all" 9 "" "";
     runFinished false "unknown" (-1) "" "Operation cancelled by user"] /\
  filter isTestProgress (signals (stop h r)) = [] /\
  length (runOutcomes (signals (stop h r))) = 2%nat.
Proof. vm_compute. repeat split; reflexivity. Qed.

(** The same in the first phase of a chained run: the slot that runs
    inside the wait starts the second phase, and [stop] then reports the
    cancellation and resets the mode while that process keeps running. *)
Lemma stop_first_phase_starts_second :
  let h := hostWith true QProcess.Started
             (QProcess.Finished 9 QProcess.CrashExit "" "") QProcess.WaitTimedOut in
  let r := running Mode.CompareThenPrepare
             (tracking [(keyA, 0); (keyB, 0)] [keyA; keyB]) in
  signals (stop h r) =
    [progressUpdated 100 "Processing completed";
     runFinished false "compare+prepare" (-1) "" "Operation cancelled by user"] /\
  option_map (fun r' => (m_mode r', QProcess.state (m_process r'),
                         last (QProcess.arguments (m_process r')) ""))
    (stateAfter (fun _ => stop h r)) =
    Some (Mode.None, QProcess.Running, "prepare-ui").
Proof. vm_compute. split; reflexivity. Qed.

(** With no process running [stop] emits nothing and changes nothing. *)
Lemma stop_idle_does_nothing :
  signals (stop goodHost newRunner) = [] /\
  stateAfter (stop goodHost) = Some newRunner.
Proof. split; vm_compute; reflexivity. Qed.

Lemma overall_progress_zero_folder_total_witness :
  let r := tracking [(keyA, 0)] [keyA] in
  exists r' perTest,
    processLine overallLine r =
      Some (tt, r', (perTest ++ [progressUpdated 1 "Processing: 8/500 frames"])%list) /\
    (perTest = [] \/
     exists k, perTest = [testProgressUpdated k 0 "Processing: 4/0 frames"]).
Proof.
  intros r.
  refine (proj2 (overall_progress_zero_folder_total overallLine r
                   [(3%nat, "1"); (2%nat, "500"); (1%nat, "8")]
                   [(2%nat, "0"); (1%nat, "4")] _ _ _ _ _));
    vm_compute; reflexivity.
Defined.

Lemma attribution_names_active_test_witness :
  let r := tracking [(keyA, 0); (keyB, 0)] [keyA; keyB] in
  QMap.contains (m_activeTests r) keyA = true.
Proof.
  intros r.
  refine (proj1 (proj1 attribution_names_active_test 5 200 2 r
                   (set_activeTests (QMap.insert keyA 200 (m_activeTests r)) r)
                   _ keyA 2 "Processing: 5/200 frames" eq_refl _)).
  left. vm_compute. reflexivity.
Defined.

(** ** The laws of [Run] *)

Lemma bind_ret_l {A B : Type} (a : A) (f : A -> Run B) (r : TesterRunner) :
  bind (ret a) f r = f a r.
Proof.
  unfold bind, ret. destruct (f a r) as [[[b r2] e2] |]; reflexivity.
Qed.

Lemma bind_assoc {A B C : Type} (c : Run A) (f : A -> Run B) (g : B -> Run C)
      (r : TesterRunner) :
  bind (bind c f) g r = bind c (fun a => bind (f a) g) r.
Proof.
  unfold bind. destruct (c r) as [[[a r1] e1] |]; [| reflexivity].
  destruct (f a r1) as [[[b r2] e2] |]; [| reflexivity].
  destruct (g b r2) as [[[x r3] e3] |]; [| reflexivity].
  now rewrite app_assoc.
Qed.

Lemma bind_ext {A B : Type} (c : Run A) (f g : A -> Run B) (r : TesterRunner) :
  (forall a r1, f a r1 = g a r1) -> bind c f r = bind c g r.
Proof.
  intros E. unfold bind. destruct (c r) as [[[a r1] e1] |]; [| reflexivity].
  now rewrite E.
Qed.

Lemma forEach_app {A : Type} (l1 l2 : list A) (body : A -> Run unit)
      (r : TesterRunner) :
  forEach (l1 ++ l2) body r = bind (forEach l1 body) (fun _ => forEach l2 body) r.
Proof.
  revert r. induction l1 as [| x l1 IH]; intros r.
  - simpl. now rewrite bind_ret_l.
  - cbn [forEach app]. rewrite bind_assoc. apply bind_ext. intros _. exact IH.
Qed.

Lemma forEach_when_emit {A : Type} (l : list A) (p : A -> bool) (f : A -> Signal)
      (r : TesterRunner) :
  forEach l (fun x => when (p x) (emit (f x))) r =
  Some (tt, r, List.map f (filter p l)).
Proof.
  induction l as [| x l IH]; [reflexivity |].
  cbn [forEach filter]. unfold bind. destruct (p x); simpl; now rewrite IH.
Qed.

(** ** Signals of a computation *)

Section Emits.
Variable P : Signal -> Prop.

Lemma emitsOnly_ret {A : Type} (a : A) : emitsOnly P (ret a).
Proof. intros r a' r' e H. inversion H. constructor. Qed.

Lemma emitsOnly_modify (f : TesterRunner -> TesterRunner) : emitsOnly P (modify f).
Proof. intros r a' r' e H. inversion H. constructor. Qed.

Lemma emitsOnly_undefined {A : Type} : emitsOnly P (@undefined A).
Proof. intros r a' r' e H. discriminate. Qed.

Lemma emitsOnly_emit (s : Signal) : P s -> emitsOnly P (emit s).
Proof. intros Ps r a' r' e H. inversion H. now repeat constructor. Qed.

Lemma emitsOnly_bind {A B : Type} (c : Run A) (f : A -> Run B) :
  emitsOnly P c -> (forall a, emitsOnly P (f a)) -> emitsOnly P (bind c f).
Proof.
  intros Pc Pf r b r' e H. unfold bind in H.
  destruct (c r) as [[[a r1] e1] |] eqn:C; [| discriminate].
  destruct (f a r1) as [[[b' r2] e2] |] eqn:F; [| discriminate].
  inversion H; subst. apply Forall_app. split; [exact (Pc _ _ _ _ C) |].
  exact (Pf _ _ _ _ _ F).
Qed.

Lemma emitsOnly_when (b : bool) (c : Run unit) :
  emitsOnly P c -> emitsOnly P (when b c).
Proof. destruct b; simpl; auto using emitsOnly_ret. Qed.

Lemma emitsOnly_forEach {A : Type} (l : list A) (body : A -> Run unit) :
  (forall x, emitsOnly P (body x)) -> emitsOnly P (forEach l body).
Proof.
  intros Pb. induction l; simpl; auto using emitsOnly_ret, emitsOnly_bind.
Qed.

Lemma emitsOnly_reading {A : Type} (f : TesterRunner -> Run A) :
  (forall r, emitsOnly P (f r)) -> emitsOnly P (bind get f).
Proof.
  intros Pf. apply emitsOnly_bind; auto.
  intros r a r' e H. inversion H. constructor.
Qed.

(** The handlers of the lines emit progress signals only. *)
Hypothesis P_test : forall k p m, P (testProgressUpdated k p m).
Hypothesis P_progress : forall p m, P (progressUpdated p m).

Lemma attributeProgress_emitsOnly (total : Z) : emitsOnly P (attributeProgress total).
Proof.
  intros r k r' e. rewrite attributeProgress_eq. cbv zeta.
  destruct (QString.isEmpty (findTestKeyByFrameCount r total));
    [destruct (oldestUnknown (m_activeTests r) (m_testKeyQueue r)) |];
    intros H; inversion H; constructor.
Qed.

Lemma processLine_emitsOnly (line : string) : emitsOnly P (processLine line).
Proof.
  unfold processLine.
  destruct (QRegExp.indexIn startingRegex line).
  { unfold onStartingComparison.
    auto using emitsOnly_when, emitsOnly_bind, emitsOnly_modify, emitsOnly_emit. }
  destruct (QRegExp.indexIn progressRegex line).
  { unfold onProgress. apply emitsOnly_bind; [apply attributeProgress_emitsOnly |].
    intros k. auto using emitsOnly_when, emitsOnly_bind, emitsOnly_emit. }
  destruct (QRegExp.indexIn overallProgressRegex line).
  { unfold onOverallProgress.
    apply emitsOnly_bind; [| intros; now apply emitsOnly_emit].
    destruct (QRegExp.indexIn currentFolderRegex line); [| apply emitsOnly_ret].
    destruct (folderPercent _ _); [| apply emitsOnly_undefined].
    apply emitsOnly_bind; [apply attributeProgress_emitsOnly |].
    intros k. auto using emitsOnly_when, emitsOnly_emit. }
  destruct (QRegExp.indexIn completedRegex line).
  { unfold onCompleted. apply emitsOnly_reading. intros r.
    destruct (negb (QString.isEmpty (extractTestKeyFromPath _)));
      [| destruct (negb (QString.isEmpty (m_currentTestKey r)))];
      auto 10 using emitsOnly_ret, emitsOnly_bind, emitsOnly_modify, emitsOnly_emit. }
  unfold onFrameComparisonCompleted, onPhaseCompleted, onAllCompleted.
  apply emitsOnly_bind; [| intros _; apply emitsOnly_bind; [| intros _]].
  - apply emitsOnly_when, emitsOnly_reading. intros r.
    auto using emitsOnly_when, emitsOnly_bind, emitsOnly_modify, emitsOnly_emit.
  - apply emitsOnly_when.
    destruct (QRegExp.indexIn phaseRegex line);
      auto using emitsOnly_ret, emitsOnly_emit.
  - auto using emitsOnly_when, emitsOnly_emit.
Qed.
End Emits.

(** ** Raw output lines *)

Lemma filter_map_comm {A B : Type} (g : A -> B) (p : B -> bool) (l : list A) :
  filter p (List.map g l) = List.map g (filter (fun x => p (g x)) l).
Proof.
  induction l as [| x l IH]; simpl; auto.
  destruct (p (g x)); simpl; now rewrite IH.
Qed.

Lemma emitOutputLines_eq (tag output : string) (isError : bool) (r : TesterRunner) :
  emitOutputLines tag output isError r =
  Some (tt, r, List.map (fun l => outputLine (tag ++ l) isError) (forwardedLines output)).
Proof.
  unfold emitOutputLines, forwardedLines.
  rewrite (forEach_when_emit (QString.split "010" output)
             (fun rawLine => negb (QString.isEmpty (QString.trimmed rawLine)))
             (fun rawLine => outputLine (tag ++ QString.trimmed rawLine) isError)).
  now rewrite filter_map_comm, map_map.
Qed.



(** ** Standard output *)

Lemma onReadyReadStandardOutput_eq (output : string) (r : TesterRunner) :
  onReadyReadStandardOutput output r =
  match forEach (QString.splitSkipEmpty "010" output) processLine r with
  | Some (u, r', e) =>
      Some (u, r', (List.map (fun l => outputLine l false) (forwardedLines output) ++ e)%list)
  | None => None
  end.
Proof.
  unfold onReadyReadStandardOutput, bind. now rewrite emitOutputLines_eq.
Qed.

Lemma control_preserved (c : QProcess.t * QProcess.t * Mode.t * string * string * bool)
      (output : string) :
  preserves (fun r => control r = c) (onReadyReadStandardOutput output).
Proof.
  apply onReadyReadStandardOutput_preserves; intros r; intros; destruct r; assumption.
Qed.

(** X2.  The handler of standard output only tracks tests and reports
    progress: it leaves the two processes, the mode, the stored paths and
    the flag of the second step as they are, and it emits neither
    runStarted nor runFinished. *)
Theorem output_never_touches_the_run (output : string) (r r' : TesterRunner)
        (e : list Signal) :
  onReadyReadStandardOutput output r = Some (tt, r', e) ->
  control r' = control r /\ Forall (fun s => isRunSignal s = false) e.
Proof.
  intros H. split.
  - exact (control_preserved (control r) output r tt r' e eq_refl H).
  - rewrite onReadyReadStandardOutput_eq in H.
    destruct (forEach (QString.splitSkipEmpty "010" output) processLine r)
      as [[[u r1] e1] |] eqn:F; [| discriminate].
    inversion H; subst. apply Forall_app. split.
    + apply Forall_forall. intros s I. apply in_map_iff in I.
      destruct I as [l [E _]]. now subst.
    + revert F. apply emitsOnly_forEach. intros line.
      apply processLine_emitsOnly; reflexivity.
Qed.

Lemma output_never_touches_the_run_witness :
  let r := running Mode.All newRunner in
  exists r' e,
    onReadyReadStandardOutput twoTestsOutput r = Some (tt, r', e) /\
    control r' = control r /\ Forall (fun s => isRunSignal s = false) e.
Proof.
  intros r.
  destruct (onReadyReadStandardOutput twoTestsOutput r) as [[[[] r'] e] |] eqn:H.
  - exists r', e. split; [reflexivity |].
    exact (output_never_touches_the_run twoTestsOutput r r' e H).
  - exfalso. vm_compute in H. discriminate.
Defined.

(** ** Chunks *)

Lemma split_not_nil (sep : ascii) (s : string) : QString.split sep s <> [].
Proof.
  destruct s as [| c s]; simpl; [discriminate |].
  destruct (Ascii.eqb c sep); [discriminate |].
  destruct (QString.split sep s); discriminate.
Qed.

Lemma split_app (sep : ascii) (a b : string) :
  QString.split sep (a ++ String sep b) =
  (QString.split sep a ++ QString.split sep b)%list.
Proof.
  induction a as [| c a IH].
  - cbn [append QString.split]. now rewrite Ascii.eqb_refl.
  - cbn [append QString.split]. rewrite IH.
    destruct (Ascii.eqb c sep); [reflexivity |].
    destruct (QString.split sep a) eqn:E; [| reflexivity].
    elim (split_not_nil sep a E).
Qed.

Lemma filter_all {A : Type} (f : A -> bool) (l : list A) :
  Forall (fun x => f x = true) l -> filter f l = l.
Proof. induction 1 as [| x l H F IH]; simpl; [| rewrite H, IH]; reflexivity. Qed.

Lemma filter_none {A : Type} (f : A -> bool) (l : list A) :
  Forall (fun x => f x = false) l -> filter f l = [].
Proof. induction 1 as [| x l H F IH]; simpl; [| rewrite H, IH]; reflexivity. Qed.

Lemma parsed_no_outputLine (lines : list string) (r r' : TesterRunner) (e : list Signal) :
  forEach lines processLine r = Some (tt, r', e) ->
  Forall (fun s => isOutputLine s = false) e.
Proof.
  apply emitsOnly_forEach. intros line. apply processLine_emitsOnly; reflexivity.
Qed.

Lemma forwarded_all_outputLine (f : string -> Signal) (l : list string) :
  (forall x, isOutputLine (f x) = true) ->
  Forall (fun s => isOutputLine s = true) (List.map f l).
Proof. intros H. apply Forall_forall. intros s I. apply in_map_iff in I.
       destruct I as [x [E _]]. subst. apply H. Qed.

(** X3.  Output that arrives in two chunks cut at a line break is handled
    like the same output in one chunk: the runner ends in the same state,
    with the same raw lines forwarded in the same order and the same
    progress signals in the same order. *)
Theorem chunks_cut_at_line_break (a b : string) (r : TesterRunner) :
  let whole := onReadyReadStandardOutput (a ++ newline ++ b) r in
  let parts := bind (onReadyReadStandardOutput a)
                    (fun _ => onReadyReadStandardOutput b) r in
  stateOf whole = stateOf parts /\
  filter isOutputLine (signals whole) = filter isOutputLine (signals parts) /\
  filter (fun s => negb (isOutputLine s)) (signals whole) =
  filter (fun s => negb (isOutputLine s)) (signals parts).
Proof.
  cbv zeta. unfold bind. rewrite !onReadyReadStandardOutput_eq.
  unfold QString.splitSkipEmpty, forwardedLines, newline.
  change (a ++ String "010" "" ++ b) with (a ++ String "010" b).
  rewrite split_app, map_app, !filter_app, map_app, forEach_app.
  set (La := filter (fun f => negb (QString.isEmpty f)) (QString.split "010" a)).
  set (Lb := filter (fun f => negb (QString.isEmpty f)) (QString.split "010" b)).
  set (Fa := List.map (fun l => outputLine l false)
               (filter (fun l => negb (QString.isEmpty l))
                       (List.map QString.trimmed (QString.split "010" a)))).
  set (Fb := List.map (fun l => outputLine l false)
               (filter (fun l => negb (QString.isEmpty l))
                       (List.map QString.trimmed (QString.split "010" b)))).
  assert (OA : Forall (fun s => isOutputLine s = true) Fa)
    by (now apply forwarded_all_outputLine).
  assert (OB : Forall (fun s => isOutputLine s = true) Fb)
    by (now apply forwarded_all_outputLine).
  unfold bind.
  destruct (forEach La processLine r) as [[[[] r1] e1] |] eqn:PA; [| now repeat split].
  rewrite onReadyReadStandardOutput_eq. fold Lb. 
  unfold QString.splitSkipEmpty, forwardedLines. fold Lb. fold Fb.
  destruct (forEach Lb processLine r1) as [[[[] r2] e2] |] eqn:PB; [| now repeat split].
  pose proof (parsed_no_outputLine _ _ _ _ PA) as N1.
  pose proof (parsed_no_outputLine _ _ _ _ PB) as N2.
  assert (NA : Forall (fun s => negb (isOutputLine s) = false) Fa).
  { eapply Forall_impl; [| exact OA]. intros s E. simpl in E. now rewrite E. }
  assert (NB : Forall (fun s => negb (isOutputLine s) = false) Fb).
  { eapply Forall_impl; [| exact OB]. intros s E. simpl in E. now rewrite E. }
  assert (T1 : Forall (fun s => negb (isOutputLine s) = true) e1).
  { eapply Forall_impl; [| exact N1]. intros s E. simpl in E. now rewrite E. }
  assert (T2 : Forall (fun s => negb (isOutputLine s) = true) e2).
  { eapply Forall_impl; [| exact N2]. intros s E. simpl in E. now rewrite E. }
  simpl. split; [reflexivity |].
  rewrite !filter_app.
  rewrite (filter_all _ _ OA), (filter_all _ _ OB).
  rewrite (filter_none _ _ N1), (filter_none _ _ N2).
  rewrite (filter_none _ _ NA), (filter_none _ _ NB).
  rewrite (filter_all _ _ T1), (filter_all _ _ T2).
  simpl. rewrite !app_nil_r. split; reflexivity.
Qed.

(** ** Attribution: the other cases *)

Lemma matchingKeys_keys (m : QMap.t) (n : Z) (k : string) :
  In k (matchingKeys m n) -> In k (QMap.keys m).
Proof.
  intros H. apply matchingKeys_In in H. destruct H as [H _].
  unfold QMap.keys. change k with (fst (k, n)). now apply in_map.
Qed.

Lemma matchingKeys_NoDup (m : QMap.t) (n : Z) : QMap.ok m -> NoDup (matchingKeys m n).
Proof.
  induction m as [| [k v] m IH]; [constructor |].
  intros [F O]. unfold matchingKeys in *. cbn [filter snd].
  destruct ((v =? n) && (v >? 0)); [| auto]. cbn [List.map fst].
  constructor; [| auto]. intros I.
  apply (matchingKeys_keys m n k) in I. unfold QMap.keys in I.
  apply in_map_iff in I. destruct I as [[k' v'] [E I]]. simpl in E. subst k'.
  rewrite Forall_forall in F. specialize (F _ I). simpl in F.
  rewrite QMapFacts.compare_refl in F. discriminate.
Qed.

Lemma NoDup_all_equal (l : list string) (k : string) :
  NoDup l -> In k l -> (forall x, In x l -> x = k) -> l = [k].
Proof.
  intros N I A. destruct l as [| x l]; [destruct I |].
  rewrite (A x (or_introl eq_refl)) in *. f_equal.
  destruct l as [| y l]; [reflexivity |].
  inversion N as [| ? ? NI _]; subst.
  elim NI. left. apply A. right. now left.
Qed.

(** X4.  When exactly one active test has the total of a progress line as
    its known frame count, the line is attributed to that test, whatever
    the queue holds, and nothing is changed. *)
Theorem attributeProgress_unique_match (r : TesterRunner) (n : Z) (k : string) :
  tracked r -> 0 < n -> activeWith r k n ->
  (forall k', activeWith r k' n -> k' = k) ->
  findTestKeyByFrameCount r n = k /\
  attributeProgress n r = Some (k, r, []) /\
  forall current percent,
    onProgress current n percent r =
    Some (tt, r, [testProgressUpdated k percent (processingMessage current n);
                  progressUpdated percent (processingMessage current n)]).
Proof.
  intros T L A U. pose proof (tracked_ok r T) as O.
  assert (M : matchingKeys (m_activeTests r) n = [k]).
  { apply NoDup_all_equal.
    - now apply matchingKeys_NoDup.
    - apply matchingKeys_active; auto.
    - intros x I. apply matchingKeys_active in I; auto. apply U, I. }
  assert (NE : QString.isEmpty k = false).
  { apply isEmpty_false. intros E. subst k. destruct A as [C _].
    rewrite (tracked_nonempty r T) in C. discriminate. }
  assert (F : findTestKeyByFrameCount r n = k)
    by now apply findTestKeyByFrameCount_single.
  assert (P : attributeProgress n r = Some (k, r, [])).
  { rewrite attributeProgress_eq. cbv zeta. now rewrite F, NE. }
  repeat split; auto.
  intros current percent. unfold onProgress, bind. now rewrite P, NE.
Qed.

Lemma attributeProgress_unique_match_witness :
  let r := tracking [(keyA, 200); (keyB, 300)] [keyA; keyB] in
  findTestKeyByFrameCount r 300 = keyB /\
  attributeProgress 300 r = Some (keyB, r, []) /\
  forall current percent,
    onProgress current 300 percent r =
    Some (tt, r, [testProgressUpdated keyB percent (processingMessage current 300);
                  progressUpdated percent (processingMessage current 300)]).
Proof.
  intros r. apply (attributeProgress_unique_match r 300 keyB).
  - apply trackedb_tracked. vm_compute. reflexivity.
  - lia.
  - split; vm_compute; reflexivity.
  - intros k' [C V]. unfold r in C, V. cbn [tracking m_activeTests set_testKeyQueue
      set_activeTests] in C, V. unfold QMap.contains, QMap.value in C, V.
    cbn [QMap.find] in C, V.
    destruct (String.eqb_spec keyA k') as [E | N1];
      [exfalso; vm_compute in V; discriminate |].
    destruct (String.eqb_spec keyB k') as [E | N2]; [now symmetry | discriminate].
Defined.

Lemma oldestUnknown_none_intro (m : QMap.t) (q : list string) :
  (forall k, QMap.contains m k = true -> QMap.value m k <> 0) ->
  oldestUnknown m q = None.
Proof.
  intros H. induction q as [| x q IH]; simpl; auto.
  destruct (QMap.contains m x) eqn:C; simpl; auto.
  destruct (Z.eqb_spec (QMap.value m x) 0) as [E | N]; auto.
  elim (H x C E).
Qed.

(** X5.  When every active test has a known frame count and none of them is
    the total of a progress line, the line is attributed to no test: only
    the overall progress is reported, and nothing is changed.  This
    includes the case of no active test at all. *)
Theorem attributeProgress_unattributed (r : TesterRunner) (total : Z) :
  tracked r ->
  (forall k n, activeWith r k n -> 0 < n /\ n <> total) ->
  attributeProgress total r = Some ("", r, []) /\
  forall current percent,
    onProgress current total percent r =
    Some (tt, r, [progressUpdated percent (processingMessage current total)]).
Proof.
  intros T H. pose proof (tracked_ok r T) as O.
  assert (M : matchingKeys (m_activeTests r) total = []).
  { apply matchingKeys_nil; auto. intros k n A _. now apply (H k n). }
  assert (U : oldestUnknown (m_activeTests r) (m_testKeyQueue r) = None).
  { apply oldestUnknown_none_intro. intros k C V.
    destruct (H k 0) as [L _]; [now split | lia]. }
  assert (P : attributeProgress total r = Some ("", r, [])).
  { rewrite attributeProgress_eq. cbv zeta.
    rewrite (findTestKeyByFrameCount_none r total M). simpl. now rewrite U. }
  split; [exact P |].
  intros current percent. unfold onProgress, bind. now rewrite P.
Qed.

Lemma attributeProgress_unattributed_witness :
  let r := tracking [(keyA, 200)] [keyA] in
  attributeProgress 300 r = Some ("", r, []) /\
  forall current percent,
    onProgress current 300 percent r =
    Some (tt, r, [progressUpdated percent (processingMessage current 300)]).
Proof.
  intros r. apply (attributeProgress_unattributed r 300).
  - apply trackedb_tracked. vm_compute. reflexivity.
  - intros k n [C V]. unfold r in C, V. cbn [tracking m_activeTests set_testKeyQueue
      set_activeTests] in C, V. unfold QMap.contains, QMap.value in C, V.
    cbn [QMap.find] in C, V.
    destruct (String.eqb keyA k); [| discriminate]. subst n. lia.
Defined.

(** The attribution emits no signal of its own. *)
Lemma attributeProgress_silent
      (total : Z) (r r' : TesterRunner) (k : string) (e : list Signal) :
  attributeProgress total r = Some (k, r', e) -> e = [].
Proof.
  rewrite attributeProgress_eq. cbv zeta.
  destruct (QString.isEmpty (findTestKeyByFrameCount r total));
    [destruct (oldestUnknown (m_activeTests r) (m_testKeyQueue r)) |];
    intros H; inversion H; reflexivity.
Qed.

Lemma set_activeTests_control (m : QMap.t) (r : TesterRunner) :
  control (set_activeTests m r) = control r.
Proof. reflexivity. Qed.

(** X6.  The attribution of one progress line writes at most one entry of
    the map: either the runner is left as it was, or the returned key was
    active with an unknown frame count, no test matched by frame count, and
    that key alone gets the total.  The queue, the current key and every
    other entry stay as they are, and no signal is emitted. *)
Theorem attributeProgress_writes_one_entry
        (total : Z) (r r' : TesterRunner) (k : string) (e : list Signal) :
  attributeProgress total r = Some (k, r', e) ->
  e = [] /\
  m_testKeyQueue r' = m_testKeyQueue r /\
  m_currentTestKey r' = m_currentTestKey r /\
  control r' = control r /\
  (forall k', k' <> k ->
              QMap.find k' (m_activeTests r') = QMap.find k' (m_activeTests r)) /\
  (r' = r \/
   (activeWith r k 0 /\ findTestKeyByFrameCount r total = "" /\
    m_activeTests r' = QMap.insert k total (m_activeTests r))).
Proof.
  rewrite attributeProgress_eq. cbv zeta.
  destruct (QString.isEmpty (findTestKeyByFrameCount r total)) eqn:E.
  - apply isEmpty_true in E.
    destruct (oldestUnknown (m_activeTests r) (m_testKeyQueue r)) as [qk |] eqn:F;
      intros H; inversion H; subst; clear H.
    + destruct (oldestUnknown_some _ _ _ F) as [_ [C [V _]]].
      repeat split; auto.
      * intros k' N. simpl. apply QMapFacts.find_insert_neq. congruence.
      * right. repeat split; auto.
    + repeat split; auto.
  - intros H; inversion H; subst. repeat split; auto.
Qed.

Lemma attributeProgress_writes_one_entry_witness :
  let r := tracking [(keyA, 200); (keyB, 0)] [keyA; keyB] in
  let r' := tracking [(keyA, 200); (keyB, 300)] [keyA; keyB] in
  attributeProgress 300 r = Some (keyB, r', []) /\
  m_testKeyQueue r' = m_testKeyQueue r /\
  (forall k', k' <> keyB ->
              QMap.find k' (m_activeTests r') = QMap.find k' (m_activeTests r)).
Proof.
  intros r r'.
  assert (H : attributeProgress 300 r = Some (keyB, r', []))
    by (vm_compute; reflexivity).
  split; [exact H |].
  destruct (attributeProgress_writes_one_entry 300 r r' keyB [] H)
    as [_ [Q [_ [_ [F _]]]]].
  split; assumption.
Defined.

(** X7.  A "Progress:" line always ends with the overall progress signal
    that carries the percentage and the message of the line, whether or
    not the line could be attributed to a test; a per-test signal, when
    there is one, comes first, carries the same percentage and message, and
    names an active test. *)
Theorem progress_line_reports_overall
        (line : string) (r : TesterRunner) (cs : QRegExp.captures) :
  QRegExp.indexIn startingRegex line = None ->
  QRegExp.indexIn progressRegex line = Some cs ->
  let current := QString.toInt (QRegExp.cap cs 1) in
  let total := QString.toInt (QRegExp.cap cs 2) in
  let percent := QString.toInt (QRegExp.cap cs 3) in
  exists r' perTest,
    processLine line r =
      Some (tt, r', (perTest ++ [progressUpdated percent
                                   (processingMessage current total)])%list) /\
    (perTest = [] \/
     exists k, perTest = [testProgressUpdated k percent
                            (processingMessage current total)] /\
               QMap.contains (m_activeTests r') k = true).
Proof.
  intros S P current total percent.
  unfold processLine. rewrite S, P. fold current total percent.
  unfold onProgress, bind.
  destruct (attributeProgress total r) as [[[k r1] e1] |] eqn:A.
  2:{ rewrite attributeProgress_eq in A. cbv zeta in A.
      destruct (QString.isEmpty (findTestKeyByFrameCount r total));
        [destruct (oldestUnknown (m_activeTests r) (m_testKeyQueue r)) |];
        discriminate. }
  destruct (QString.isEmpty k) eqn:E; simpl.
  - apply attributeProgress_silent in A. subst e1.
    exists r1, []. split; [reflexivity | now left].
  - apply isEmpty_false in E.
    destruct (attributeProgress_active _ _ _ _ _ A E) as [-> [_ C]].
    exists r1. eexists [_]. split; [reflexivity |]. right. eauto.
Qed.

Lemma progress_line_reports_overall_witness :
  let r := tracking [(keyA, 0)] [keyA] in
  exists r' perTest,
    processLine "Progress: 10/50 frames (20%)" r =
      Some (tt, r', (perTest ++ [progressUpdated 20 "Processing: 10/50 frames"])%list) /\
    (perTest = [] \/
     exists k, perTest = [testProgressUpdated k 20 "Processing: 10/50 frames"] /\
               QMap.contains (m_activeTests r') k = true).
Proof.
  intros r.
  refine (progress_line_reports_overall "Progress: 10/50 frames (20%)" r
            [(3%nat, "20"); (2%nat, "50"); (1%nat, "10")] _ _);
    vm_compute; reflexivity.
Defined.

(** X8.  The percentage of the folder in an "Overall progress" line: for a
    count that does not exceed a positive total it is defined, it is the
    quotient rounded down, between 0 and 100, and 100 exactly when the
    count equals the total. *)
Theorem folderPercent_bounds (folderCurrent folderTotal : Z) :
  0 <= folderCurrent <= folderTotal -> 0 < folderTotal ->
  exists q,
    folderPercent folderCurrent folderTotal = Some q /\
    0 <= q <= 100 /\
    q * folderTotal <= folderCurrent * 100 < (q + 1) * folderTotal /\
    (q = 100 <-> folderCurrent = folderTotal).
Proof.
  intros B L. unfold folderPercent.
  destruct (Z.gtb_spec folderTotal 0) as [_ | N]; [| lia].
  set (q := folderCurrent * 100 / folderTotal).
  assert (D : folderCurrent * 100 = folderTotal * q + (folderCurrent * 100) mod folderTotal)
    by (apply Z.div_mod; lia).
  assert (R : 0 <= (folderCurrent * 100) mod folderTotal < folderTotal)
    by (apply Z.mod_pos_bound; lia).
  assert (Q0 : 0 <= q) by (apply Z.div_pos; lia).
  assert (Q1 : q <= 100).
  { unfold q. apply Z.div_le_upper_bound; lia. }
  exists q. unfold QString.INT_MAX.
  destruct (Z.leb_spec q 2147483647) as [_ | G]; [| lia].
  split; [reflexivity |]. split; [lia |]. split; [nia |].
  split; intros E; nia.
Qed.

Lemma folderPercent_bounds_witness :
  exists q,
    folderPercent 4 30 = Some q /\
    0 <= q <= 100 /\
    q * 30 <= 4 * 100 < (q + 1) * 30 /\
    (q = 100 <-> 4 = 30).
Proof. apply (folderPercent_bounds 4 30); lia. Defined.

(** ** Completion *)

(** X9.  A "Successfully completed comparison for:" line whose path gives
    a test key reports that test as completed, whether or not it was
    active, takes it out of the map, removes its oldest entry from the
    queue and resets the current key when it is that test.  The other
    tests keep their entries, and until the test is announced again no
    progress line is attributed to it. *)
Theorem onCompleted_removes_test (folderPath : string) (r : TesterRunner) :
  let k := extractTestKeyFromPath folderPath in
  k <> "" ->
  exists r',
    onCompleted folderPath r = Some (tt, r', [testProgressUpdated k 100 "Completed"]) /\
    QMap.contains (m_activeTests r') k = false /\
    (forall k', k' <> k ->
                QMap.find k' (m_activeTests r') = QMap.find k' (m_activeTests r)) /\
    m_testKeyQueue r' = removeFirst k (m_testKeyQueue r) /\
    m_currentTestKey r' =
      (if String.eqb (m_currentTestKey r) k then "" else m_currentTestKey r) /\
    control r' = control r /\
    forall total k' r'' e,
      attributeProgress total r' = Some (k', r'', e) -> k' <> k.
Proof.
  intros k NE. unfold onCompleted. fold k.
  apply isEmpty_false in NE as NE'. unfold bind, get. rewrite NE'. simpl.
  eexists. split; [reflexivity |].
  assert (C : forall x, QMap.contains
                (m_activeTests
                   (if String.eqb (m_currentTestKey r) k
                    then set_currentTestKey "" x else x)) k =
              QMap.contains (m_activeTests x) k)
    by (intros x; now destruct (String.eqb (m_currentTestKey r) k)).
  destruct (String.eqb (m_currentTestKey r) k) eqn:Ec; simpl;
    (split; [now rewrite QMapFacts.contains_remove, String.eqb_refl |]);
    (split; [intros k' N; apply QMapFacts.find_remove_neq; congruence |]);
    (split; [reflexivity |]); (split; [reflexivity |]); (split; [reflexivity |]);
    intros total k' r'' e A E; subst k';
    apply attributeProgress_active in A; auto;
    destruct A as [_ [A _]]; simpl in A;
    rewrite QMapFacts.contains_remove, String.eqb_refl in A; discriminate.
Qed.

Lemma onCompleted_removes_test_witness :
  let r := tracking [(keyA, 200); ("Cat/Ev/Set/F0007", 50)] [keyA; "Cat/Ev/Set/F0007"] in
  let k := extractTestKeyFromPath pathF0007 in
  exists r',
    onCompleted pathF0007 r = Some (tt, r', [testProgressUpdated k 100 "Completed"]) /\
    QMap.contains (m_activeTests r') k = false /\
    (forall k', k' <> k ->
                QMap.find k' (m_activeTests r') = QMap.find k' (m_activeTests r)) /\
    m_testKeyQueue r' = removeFirst k (m_testKeyQueue r) /\
    m_currentTestKey r' =
      (if String.eqb (m_currentTestKey r) k then "" else m_currentTestKey r) /\
    control r' = control r /\
    forall total k' r'' e,
      attributeProgress total r' = Some (k', r'', e) -> k' <> k.
Proof.
  intros r. apply (onCompleted_removes_test pathF0007 r).
  vm_compute. discriminate.
Defined.

(** X10.  A "Successfully completed comparison for:" line whose path gives
    no test key falls back on the current key: without a current key
    nothing happens; with one, that test is reported as completed and taken
    out of the map, the current key is reset, and the queue keeps its
    entry. *)
Theorem onCompleted_without_key (folderPath : string) (r : TesterRunner) :
  extractTestKeyFromPath folderPath = "" ->
  (m_currentTestKey r = "" -> onCompleted folderPath r = Some (tt, r, [])) /\
  (m_currentTestKey r <> "" ->
   exists r',
     onCompleted folderPath r =
       Some (tt, r', [testProgressUpdated (m_currentTestKey r) 100 "Completed"]) /\
     QMap.contains (m_activeTests r') (m_currentTestKey r) = false /\
     m_currentTestKey r' = "" /\
     m_testKeyQueue r' = m_testKeyQueue r /\
     control r' = control r).
Proof.
  intros E. unfold onCompleted, bind, get. rewrite E. simpl. split.
  - intros C. now rewrite C.
  - intros C. apply isEmpty_false in C. rewrite C. simpl.
    eexists. split; [reflexivity |]. simpl.
    rewrite QMapFacts.contains_remove, String.eqb_refl. repeat split.
Qed.

Lemma onCompleted_without_key_witness :
  let r := set_currentTestKey keyA (tracking [(keyA, 200)] [keyA]) in
  exists r',
    onCompleted "C:/tmp/unknown folder" r =
      Some (tt, r', [testProgressUpdated keyA 100 "Completed"]) /\
    QMap.contains (m_activeTests r') keyA = false /\
    m_currentTestKey r' = "" /\
    m_testKeyQueue r' = m_testKeyQueue r /\
    control r' = control r.
Proof.
  intros r.
  refine (proj2 (onCompleted_without_key "C:/tmp/unknown folder" r _) _);
    vm_compute; [reflexivity | discriminate].
Defined.

(** ** The tracking members over the whole interface *)

Section Events.
Variable Inv : TesterRunner -> Prop.

Lemma preserves_get_then {A : Type} (f : TesterRunner -> Run A) :
  (forall r0, preserves Inv (f r0)) -> preserves Inv (bind get f).
Proof.
  intros Pf. apply preserves_reading. intros r a r' e I H. exact (Pf r r a r' e I H).
Qed.

(** The property is one of the tracking members, it holds when they are
    cleared, and the output handler keeps it. *)
Hypothesis Inv_tracking : forall r r', trackingOf r' = trackingOf r -> Inv r -> Inv r'.
Hypothesis Inv_clear : forall r, Inv (clearTracking r).
Hypothesis Inv_output : forall output, preserves Inv (onReadyReadStandardOutput output).

Ltac untouched :=
  let I := fresh in
  intros ? I; eapply Inv_tracking; [| exact I]; reflexivity.

Ltac preserve :=
  repeat lazymatch goal with
  | |- preserves _ (ret _) => apply preserves_ret
  | |- preserves _ (emit _) => apply preserves_emit
  | |- preserves _ (when _ _) => apply preserves_when
  | |- preserves _ (forEach _ _) => apply preserves_forEach; intros; cbv beta zeta
  | |- preserves _ (bind get _) => apply preserves_get_then; intros; cbv beta
  | |- preserves _ (bind _ _) => apply preserves_bind; [| intros]
  | |- preserves _ (modify _) =>
      apply preserves_modify; first [untouched | intros; apply Inv_clear]
  end.

Lemma startProcess_preserves (h : Host) (program : string) (args : list string)
      (wd : string) :
  preserves Inv (startProcess h program args wd).
Proof.
  unfold startProcess. preserve.
  match goal with |- context [if negb ?b then _ else _] => destruct (negb b) end;
    preserve.
  destruct (QProcess.waitForStarted (startOutcome h) (m_process r0)). preserve.
Qed.

Lemma runAll_preserves (h : Host) (testerPath iniPath : string) :
  preserves Inv (runAll h testerPath iniPath).
Proof.
  unfold runAll.
  destruct (QString.isEmpty testerPath); [preserve |].
  destruct (QString.isEmpty iniPath); [preserve |].
  preserve. apply startProcess_preserves.
Qed.

Lemma runCompareAndPrepare_preserves (h : Host) (testerPath iniPath : string) :
  preserves Inv (runCompareAndPrepare h testerPath iniPath).
Proof.
  unfold runCompareAndPrepare.
  destruct (QString.isEmpty testerPath); [preserve |].
  destruct (QString.isEmpty iniPath); [preserve |].
  preserve. apply startProcess_preserves.
Qed.

Lemma runPrepareUI_preserves (h : Host) (testerPath iniPath : string) :
  preserves Inv (runPrepareUI h testerPath iniPath).
Proof.
  unfold runPrepareUI.
  destruct (QString.isEmpty testerPath); [preserve |].
  destruct (QString.isEmpty iniPath); [preserve |].
  preserve. destruct (QProcess.active (m_prepareUIProcess r0)); preserve.
Qed.

Lemma runNextStep_preserves (h : Host) : preserves Inv (runNextStep h).
Proof.
  unfold runNextStep. preserve.
  destruct (m_mode r0); preserve. apply startProcess_preserves.
Qed.

Lemma processFinished_preserves (h : Host) (exitCode : Z)
      (exitStatus : QProcess.ExitStatus) (stdOut stdErr : string) :
  preserves Inv (processFinished h exitCode exitStatus stdOut stdErr).
Proof.
  unfold processFinished, onProcessFinished. preserve.
  destruct (m_mode r0); [| | destruct (m_step2Queued r0)]; preserve;
    apply runNextStep_preserves.
Qed.

Lemma prepareUIProcessFinished_preserves (exitCode : Z)
      (exitStatus : QProcess.ExitStatus) (stdOut stdErr : string) :
  preserves Inv (prepareUIProcessFinished exitCode exitStatus stdOut stdErr).
Proof. unfold prepareUIProcessFinished, onPrepareUIProcessFinished. preserve. Qed.

Lemma stop_preserves (h : Host) : preserves Inv (stop h).
Proof.
  unfold stop, killAndWait. preserve.
  - destruct (killOutcome h); preserve. apply processFinished_preserves.
  - destruct (prepareUIKillOutcome h); preserve.
    apply prepareUIProcessFinished_preserves.
Qed.

Lemma dispatch_preserves (ev : Event) : preserves Inv (dispatch ev).
Proof.
  destruct ev; simpl.
  - apply runAll_preserves.
  - apply runCompareAndPrepare_preserves.
  - apply runPrepareUI_preserves.
  - apply stop_preserves.
  - apply Inv_output.
  - unfold onReadyReadStandardError, emitOutputLines. preserve.
  - apply processFinished_preserves.
  - unfold onPrepareUIReadyRead, emitOutputLines. preserve.
  - apply prepareUIProcessFinished_preserves.
Qed.

Lemma runEvents_preserves (evs : list Event) : preserves Inv (runEvents evs).
Proof. unfold runEvents. apply preserves_forEach, dispatch_preserves. Qed.
End Events.

Lemma tracked_tracking (r r' : TesterRunner) :
  trackingOf r' = trackingOf r -> tracked r -> tracked r'.
Proof.
  unfold trackingOf. intros E [O Q N]. inversion E as [[E1 E2 E3]].
  split; rewrite ?E2, ?E3; auto.
Qed.

Lemma wellTracked_tracking (r r' : TesterRunner) :
  trackingOf r' = trackingOf r -> wellTracked r -> wellTracked r'.
Proof.
  intros E [T D]. split; [now apply (tracked_tracking r) |].
  unfold trackingOf in E. inversion E as [[E1 E2 E3]].
  unfold distinctTotals, activeWith in *. rewrite E2. exact D.
Qed.

Lemma runEvents_keeps_wellTracked (evs : list Event) :
  preserves wellTracked (runEvents evs).
Proof.
  apply runEvents_preserves.
  - exact wellTracked_tracking.
  - intros r. split; [apply tracked_clear |]. intros k1 k2 n _ [C _]. discriminate.
  - exact onReadyReadStandardOutput_wellTracked.
Qed.

(** X11.  Whatever is requested of a fresh runner, whatever the tool prints
    and whenever the processes end, the tracking members stay well formed:
    the keys of the map are distinct and in order, every active test has a
    place in the queue, and the empty key is never active. *)
Theorem reachable_tracked (evs : list Event) (r : TesterRunner) (e : list Signal) :
  runEvents evs newRunner = Some (tt, r, e) -> tracked r.
Proof.
  intros H.
  exact (proj1 (runEvents_keeps_wellTracked evs _ _ _ _ wellTracked_new H)).
Qed.

Lemma reachable_tracked_witness :
  exists r e, runEvents twoTestsRun newRunner = Some (tt, r, e) /\
              QMap.keys (m_activeTests r) = [keyA; keyB] /\ tracked r.
Proof.
  destruct (runEvents twoTestsRun newRunner) as [[[[] r] e] |] eqn:H;
    [| vm_compute in H; discriminate].
  exists r, e. split; [reflexivity |]. split.
  - vm_compute in H. inversion H. reflexivity.
  - exact (reachable_tracked twoTestsRun r e H).
Defined.

Lemma length_le_1 (l : list string) :
  NoDup l -> (forall x y, In x l -> In y l -> x = y) -> (length l <= 1)%nat.
Proof.
  intros N A. destruct l as [| x [| y l]]; simpl; auto.
  exfalso. inversion N as [| ? ? NI _]; subst. apply NI.
  rewrite (A x y); simpl; auto.
Qed.

(** X12.  In every state that a fresh runner can reach, at most one active
    test has a given frame count as its known total, so a progress line is
    never matched by frame count to more than one test, and the lookup by
    frame count returns the one there is. *)
Theorem reachable_single_match
        (evs : list Event) (r : TesterRunner) (e : list Signal) (frameCount : Z) :
  runEvents evs newRunner = Some (tt, r, e) ->
  (length (matchingKeys (m_activeTests r) frameCount) <= 1)%nat /\
  findTestKeyByFrameCount r frameCount =
    hd "" (matchingKeys (m_activeTests r) frameCount).
Proof.
  intros H.
  destruct (runEvents_keeps_wellTracked evs _ _ _ _ wellTracked_new H) as [T D].
  pose proof (tracked_ok r T) as O.
  assert (L : (length (matchingKeys (m_activeTests r) frameCount) <= 1)%nat).
  { apply length_le_1; [now apply matchingKeys_NoDup |].
    intros x y Ix Iy.
    assert (P : 0 < frameCount).
    { apply matchingKeys_In in Ix. destruct Ix as [_ P]. lia. }
    apply matchingKeys_active in Ix; auto. apply matchingKeys_active in Iy; auto.
    exact (D x y frameCount P (proj1 Ix) (proj1 Iy)). }
  split; [exact L |].
  destruct (matchingKeys (m_activeTests r) frameCount) as [| k [| k' l]] eqn:M.
  - now apply findTestKeyByFrameCount_none.
  - now apply findTestKeyByFrameCount_single.
  - simpl in L. lia.
Qed.

Lemma reachable_single_match_witness :
  exists r e, runEvents twoTestsRun newRunner = Some (tt, r, e) /\
              matchingKeys (m_activeTests r) 300 = [keyB] /\
              findTestKeyByFrameCount r 300 = hd "" (matchingKeys (m_activeTests r) 300).
Proof.
  destruct (runEvents twoTestsRun newRunner) as [[[[] r] e] |] eqn:H;
    [| vm_compute in H; discriminate].
  exists r, e. split; [reflexivity |]. split.
  - vm_compute in H. inversion H. vm_compute. reflexivity.
  - exact (proj2 (reachable_single_match twoTestsRun r e 300 H)).
Defined.

(** ** Requests *)

(** X13.  A request with an empty tester path or an empty INI path is
    refused by each of the three entry points: one failed runFinished with
    the label of the entry point, exit code -1 and the message of the
    first path that is empty, the tester path being checked first; no
    runStarted, and nothing changes. *)
Theorem run_requests_refuse_empty_paths
        (h : Host) (testerPath iniPath : string) (r : TesterRunner) :
  testerPath = "" \/ iniPath = "" ->
  let msg := if QString.isEmpty testerPath
             then "Invalid tester path" else "Invalid INI path" in
  runAll h testerPath iniPath r =
    Some (tt, r, [runFinished false "all" (-1) "" msg]) /\
  runCompareAndPrepare h testerPath iniPath r =
    Some (tt, r, [runFinished false "compare+prepare" (-1) "" msg]) /\
  runPrepareUI h testerPath iniPath r =
    Some (tt, r, [runFinished false "prepare-ui" (-1) "" msg]).
Proof.
  intros E msg. unfold msg, runAll, runCompareAndPrepare, runPrepareUI.
  destruct (QString.isEmpty testerPath) eqn:T; [repeat split |].
  destruct E as [E | E]; subst; [discriminate |]. repeat split.
Qed.

Lemma run_requests_refuse_empty_paths_witness :
  runAll goodHost "C:/tester" "" newRunner =
    Some (tt, newRunner, [runFinished false "all" (-1) "" "Invalid INI path"]) /\
  runCompareAndPrepare goodHost "C:/tester" "" newRunner =
    Some (tt, newRunner, [runFinished false "compare+prepare" (-1) "" "Invalid INI path"]) /\
  runPrepareUI goodHost "C:/tester" "" newRunner =
    Some (tt, newRunner, [runFinished false "prepare-ui" (-1) "" "Invalid INI path"]).
Proof.
  apply (run_requests_refuse_empty_paths goodHost "C:/tester" "" newRunner).
  right. reflexivity.
Defined.

Lemma toolArguments_eq (h : Host) (testerPath iniPath subcommand : string) :
  toolArguments h testerPath iniPath subcommand =
  ("main.py" ::
   (if QString.isEmpty (chosenIni h testerPath iniPath) then []
    else ["--ini"; chosenIni h testerPath iniPath]) ++ [subcommand])%list.
Proof.
  unfold toolArguments, chosenIni.
  destruct (fileExists h (absoluteFilePath h testerPath "freeDView_tester.ini")).
  - now destruct (QString.isEmpty _).
  - destruct (QString.isEmpty iniPath) eqn:E; simpl; now rewrite E.
Qed.

(** X14.  Phase 4 runs on a process of its own.  A request while that
    process is idle announces the run and starts python with the
    arguments of "prepare-ui", without looking for the program or waiting
    for the start, and touches neither the main process, the mode nor the
    tracking members; a request made while that process is starting or
    running does nothing, and the process just started counts as such. *)
Theorem runPrepareUI_starts_once
        (h : Host) (testerPath iniPath : string) (r : TesterRunner) :
  testerPath <> "" -> iniPath <> "" ->
  let p := QProcess.mk QProcess.Starting "python"
             ("main.py" ::
              (if QString.isEmpty (chosenIni h testerPath iniPath) then []
               else ["--ini"; chosenIni h testerPath iniPath]) ++ ["prepare-ui"])%list
             (workingDir h testerPath) in
  (QProcess.active (m_prepareUIProcess r) = false ->
   runPrepareUI h testerPath iniPath r =
     Some (tt, set_prepareUIProcess p r, [runStarted "prepare-ui"])) /\
  (QProcess.active (m_prepareUIProcess r) = true ->
   runPrepareUI h testerPath iniPath r = Some (tt, r, [])) /\
  QProcess.active p = true.
Proof.
  intros T I p.
  apply isEmpty_false in T. apply isEmpty_false in I.
  unfold runPrepareUI. rewrite T, I. unfold bind, get, modify, emit.
  split; [| split; [| reflexivity]]; intros A; rewrite A; [| reflexivity].
  cbn [app]. unfold p. rewrite <- toolArguments_eq.
  destruct r as [mp pu mo tp ip sq ck at_ q]. destruct pu as [s pr ar w].
  destruct s; try discriminate. reflexivity.
Qed.

Lemma runPrepareUI_starts_once_witness :
  let p := QProcess.mk QProcess.Starting "python"
             ["main.py"; "--ini"; "C:/tester/run.ini"; "prepare-ui"] "C:/tester/src" in
  runPrepareUI goodHost "C:/tester" "C:/tester/run.ini" firstPhase =
    Some (tt, set_prepareUIProcess p firstPhase, [runStarted "prepare-ui"]) /\
  runPrepareUI goodHost "C:/tester" "C:/tester/run.ini"
    (set_prepareUIProcess p firstPhase) =
    Some (tt, set_prepareUIProcess p firstPhase, []).
Proof.
  intros p. split.
  - refine (proj1 (runPrepareUI_starts_once goodHost "C:/tester" "C:/tester/run.ini"
                     firstPhase _ _) _);
      solve [discriminate | reflexivity].
  - refine (proj1 (proj2 (runPrepareUI_starts_once goodHost "C:/tester"
                            "C:/tester/run.ini"
                            (set_prepareUIProcess p firstPhase) _ _)) _);
      solve [discriminate | reflexivity].
Defined.

(** ** Launching *)

Lemma found_launches (h : Host) (program : string) :
  (if negb (fileExists h program) && negb (isExecutable h program)
   then negb (QString.isEmpty (findExecutable h program))
   else true) = true ->
  fileExists h program = true \/ isExecutable h program = true \/
  findExecutable h program <> "".
Proof.
  destruct (fileExists h program); auto.
  destruct (isExecutable h program); auto. simpl.
  intros H. right. right. apply isEmpty_false. now apply negb_true_iff.
Qed.

(** Whatever the host and the state of the process, a launch has a
    result, writes the process only, and emits at most one signal, a
    failed runFinished labelled "unknown". *)
Lemma startProcess_cases (h : Host) (program : string) (args : list string)
      (wd : string) (r : TesterRunner) :
  exists p e,
    startProcess h program args wd r = Some (tt, set_process p r, e) /\
    (e = [] \/ exists msg, e = [runFinished false "unknown" (-1) "" msg]).
Proof.
  destruct r as [mp pu mo tp ip sq ck at_ q]. destruct mp as [s pr ar w].
  unfold startProcess, bind, modify, emit, get. simpl.
  destruct (if negb (fileExists h program) && negb (isExecutable h program)
            then negb (QString.isEmpty (findExecutable h program)) else true);
    simpl; [| do 2 eexists; split; [reflexivity | eauto]].
  unfold QProcess.start, QProcess.waitForStarted.
  destruct s; simpl; try destruct (startOutcome h); simpl;
    do 2 eexists; (split; [reflexivity | eauto]).
Qed.

(** X15.  The launch of the main process when it is idle.  The process is
    configured with the program, the arguments and the directory given,
    then either the host has the program and starts it, the process runs
    and nothing is emitted, or one failed runFinished is emitted, labelled
    "unknown" whatever the mode, and the process does not run.  Nothing
    else of the runner is written. *)
Theorem startProcess_outcome (h : Host) (program : string) (args : list string)
        (wd : string) (r : TesterRunner) :
  QProcess.state (m_process r) = QProcess.NotRunning ->
  exists s e,
    startProcess h program args wd r =
      Some (tt, set_process (QProcess.mk s program args wd) r, e) /\
    ((launches h program /\ e = [] /\ s = QProcess.Running) \/
     (~ launches h program /\ s <> QProcess.Running /\
      exists msg, e = [runFinished false "unknown" (-1) "" msg])).
Proof.
  intros S. destruct r as [mp pu mo tp ip sq ck at_ q]. destruct mp as [s pr ar w].
  simpl in S. subst s.
  unfold startProcess, bind, modify, emit, get. simpl.
  destruct (if negb (fileExists h program) && negb (isExecutable h program)
            then negb (QString.isEmpty (findExecutable h program)) else true)
    eqn:F; simpl.
  - apply found_launches in F.
    unfold QProcess.start, QProcess.waitForStarted. simpl.
    destruct (startOutcome h) eqn:O; simpl; do 2 eexists;
      (split; [reflexivity |]).
    + left. repeat split; auto.
    + right. split; [intros [_ L]; congruence |]. split; [discriminate | eauto].
    + right. split; [intros [_ L]; congruence |]. split; [discriminate | eauto].
  - do 2 eexists. split; [reflexivity |]. right.
    split; [intros L; apply launches_found in L; congruence |].
    split; [discriminate | eauto].
Qed.

Lemma startProcess_outcome_witness :
  exists s e,
    startProcess goodHost "python" ["main.py"; "all"] "C:/tester/src" newRunner =
      Some (tt, set_process (QProcess.mk s "python" ["main.py"; "all"] "C:/tester/src")
                  newRunner, e) /\
    ((launches goodHost "python" /\ e = [] /\ s = QProcess.Running) \/
     (~ launches goodHost "python" /\ s <> QProcess.Running /\
      exists msg, e = [runFinished false "unknown" (-1) "" msg])).
Proof.
  apply (startProcess_outcome goodHost "python" ["main.py"; "all"] "C:/tester/src"
           newRunner).
  reflexivity.
Defined.

(** ** The end of the main process *)

(** X16.  Whatever the mode and the host, the end of the main process has
    a result: the tracking members are cleared, the first signal is the
    overall progress at 100, at most one signal follows, a runFinished,
    and no test is reported as completed or cancelled; the process of
    phase 4 is not touched. *)
Theorem process_exit_clears_tracking
        (h : Host) (exitCode : Z) (exitStatus : QProcess.ExitStatus)
        (stdOut stdErr : string) (r : TesterRunner) :
  exists r' rest,
    processFinished h exitCode exitStatus stdOut stdErr r =
      Some (tt, r', progressUpdated 100 "Processing completed" :: rest) /\
    trackingOf r' = ("", QMap.empty, []) /\
    (rest = [] \/
     exists success label code out err,
       rest = [runFinished success label code out err]) /\
    m_prepareUIProcess r' = m_prepareUIProcess r.
Proof.
  destruct r as [mp pu mo tp ip sq ck at_ q].
  unfold processFinished, onProcessFinished, runNextStep, bind, modify, emit, get.
  simpl.
  destruct mo; [| | destruct sq]; simpl;
    try (do 2 eexists; split; [reflexivity |]; repeat split; right;
         do 5 eexists; reflexivity).
  match goal with |- context [startProcess h ?pr ?ar ?w ?x] =>
    destruct (startProcess_cases h pr ar w x) as [p [e [E C]]]; rewrite E end.
  simpl. do 2 eexists. split; [reflexivity |]. repeat split.
  destruct C as [-> | [msg ->]]; [now left |]. right. do 5 eexists. reflexivity.
Qed.

(** X17.  A whole run of all phases.  On an idle runner, with paths that
    are not empty and a host that starts python, [runAll] clears the
    tracking members, announces the run and starts python in the working
    directory of the tester with main.py, the INI file chosen and "all";
    the end of that process reports the overall progress at 100 and then
    the outcome of the run, labelled "all", and leaves the runner idle. *)
Theorem runAll_then_exit
        (h h' : Host) (testerPath iniPath : string) (r : TesterRunner)
        (exitCode : Z) (exitStatus : QProcess.ExitStatus) (stdOut stdErr : string) :
  testerPath <> "" -> iniPath <> "" -> launches h "python" ->
  QProcess.state (m_process r) = QProcess.NotRunning ->
  exists r1 r2,
    runAll h testerPath iniPath r = Some (tt, r1, [runStarted "all"]) /\
    m_process r1 =
      QProcess.mk QProcess.Running "python"
        ("main.py" ::
         (if QString.isEmpty (chosenIni h testerPath iniPath) then []
          else ["--ini"; chosenIni h testerPath iniPath]) ++ ["all"])%list
        (workingDir h testerPath) /\
    trackingOf r1 = ("", QMap.empty, []) /\
    processFinished h' exitCode exitStatus stdOut stdErr r1 =
      Some (tt, r2,
            [progressUpdated 100 "Processing completed";
             runFinished (QProcess.exitedCleanly exitStatus exitCode) "all"
                         exitCode stdOut stdErr]) /\
    m_mode r2 = Mode.None /\
    QProcess.state (m_process r2) = QProcess.NotRunning /\
    m_prepareUIProcess r2 = m_prepareUIProcess r.
Proof.
  intros T I L S. apply isEmpty_false in T. apply isEmpty_false in I.
  unfold runAll. rewrite T, I. unfold bind at 1 2, modify at 1, emit at 1.
  rewrite (startProcess_launches h "python" _ _ _ L) by exact S.
  rewrite toolArguments_eq.
  do 2 eexists. split; [reflexivity |].
  do 2 (split; [reflexivity |]).
  unfold processFinished, onProcessFinished, bind, modify, emit, get. simpl.
  split; [reflexivity |]. repeat split.
Qed.

Lemma runAll_then_exit_witness :
  exists r1 r2,
    runAll goodHost "C:/tester" "C:/tester/run.ini" newRunner =
      Some (tt, r1, [runStarted "all"]) /\
    m_process r1 =
      QProcess.mk QProcess.Running "python"
        ["main.py"; "--ini"; "C:/tester/run.ini"; "all"] "C:/tester/src" /\
    trackingOf r1 = ("", QMap.empty, []) /\
    processFinished goodHost 3 QProcess.NormalExit "" "Traceback" r1 =
      Some (tt, r2,
            [progressUpdated 100 "Processing completed";
             runFinished false "all" 3 "" "Traceback"]) /\
    m_mode r2 = Mode.None /\
    QProcess.state (m_process r2) = QProcess.NotRunning /\
    m_prepareUIProcess r2 = m_prepareUIProcess newRunner.
Proof.
  apply (runAll_then_exit goodHost goodHost "C:/tester" "C:/tester/run.ini" newRunner
           3 QProcess.NormalExit "" "Traceback").
  - discriminate.
  - discriminate.
  - split; [right; right; vm_compute; discriminate | reflexivity].
  - reflexivity.
Defined.

(** The end of the first phase of a chained run on a host that starts
    python: the state that is left. *)
Lemma processFinished_first_phase
      (h : Host) (r : TesterRunner) (exitCode : Z)
      (exitStatus : QProcess.ExitStatus) (stdOut stdErr : string) :
  m_mode r = Mode.CompareThenPrepare -> m_step2Queued r = false ->
  launches h "python" ->
  processFinished h exitCode exitStatus stdOut stdErr r =
    Some (tt,
          set_process
            (QProcess.mk QProcess.Running "python"
               (toolArguments h (m_testerPath r) (m_iniPath r) "prepare-ui")
               (workingDir h (m_testerPath r)))
            (set_step2Queued true (clearTracking r)),
          [progressUpdated 100 "Processing completed"]).
Proof.
  intros M Q L.
  destruct r as [p pu mo tp ip sq ck at_ q]. simpl in M, Q. subst mo sq.
  unfold processFinished, onProcessFinished, runNextStep, bind, modify, emit, get.
  simpl.
  rewrite (startProcess_launches h "python" _ _ _ L) by reflexivity.
  reflexivity.
Qed.

(** The end of the main process in any other situation. *)
Lemma processFinished_reports
      (h : Host) (r : TesterRunner) (exitCode : Z)
      (exitStatus : QProcess.ExitStatus) (stdOut stdErr : string) :
  (m_mode r = Mode.CompareThenPrepare -> m_step2Queued r = true) ->
  processFinished h exitCode exitStatus stdOut stdErr r =
    Some (tt,
          set_step2Queued false
            (set_mode Mode.None
               (clearTracking
                  (set_process
                     (QProcess.setState QProcess.NotRunning (m_process r)) r))),
          [progressUpdated 100 "Processing completed";
           runFinished (QProcess.exitedCleanly exitStatus exitCode)
                       (modeStr (m_mode r)) exitCode stdOut stdErr]).
Proof.
  intros G. destruct r as [p pu mo tp ip sq ck at_ q]. simpl in G.
  unfold processFinished, onProcessFinished, bind, modify, emit, get. simpl.
  destruct mo; [| | rewrite (G eq_refl)]; reflexivity.
Qed.

Lemma runCompareAndPrepare_launches
      (h : Host) (testerPath iniPath : string) (r : TesterRunner) :
  testerPath <> "" -> iniPath <> "" -> launches h "python" ->
  QProcess.state (m_process r) = QProcess.NotRunning ->
  runCompareAndPrepare h testerPath iniPath r =
    Some (tt,
          set_process
            (QProcess.mk QProcess.Running "python"
               (toolArguments h testerPath iniPath "compare")
               (workingDir h testerPath))
            (clearTracking
               (set_step2Queued false
                  (set_mode Mode.CompareThenPrepare
                     (set_paths testerPath iniPath r)))),
          [runStarted "compare+prepare"]).
Proof.
  intros T I L S. apply isEmpty_false in T. apply isEmpty_false in I.
  unfold runCompareAndPrepare. rewrite T, I.
  unfold bind at 1 2, modify at 1, emit at 1.
  rewrite (startProcess_launches h "python" _ _ _ L) by exact S.
  reflexivity.
Qed.

(** X18.  A whole chained run.  [runCompareAndPrepare] starts "compare";
    when that process ends, whatever its exit code and status, the second
    phase is started with the paths stored by the request, on the host as
    it is then; the run reports one outcome, at the end of the second
    process, labelled "compare+prepare", and its success is that of the
    second process alone. *)
Theorem runCompareAndPrepare_then_exits
        (h h1 h2 : Host) (testerPath iniPath : string) (r : TesterRunner)
        (c1 c2 : Z) (s1 s2 : QProcess.ExitStatus) (o1 e1 o2 e2 : string) :
  testerPath <> "" -> iniPath <> "" ->
  launches h "python" -> launches h1 "python" ->
  QProcess.state (m_process r) = QProcess.NotRunning ->
  exists r1 r2 r3,
    runCompareAndPrepare h testerPath iniPath r =
      Some (tt, r1, [runStarted "compare+prepare"]) /\
    m_process r1 =
      QProcess.mk QProcess.Running "python"
        (toolArguments h testerPath iniPath "compare") (workingDir h testerPath) /\
    processFinished h1 c1 s1 o1 e1 r1 =
      Some (tt, r2, [progressUpdated 100 "Processing completed"]) /\
    m_process r2 =
      QProcess.mk QProcess.Running "python"
        (toolArguments h1 testerPath iniPath "prepare-ui") (workingDir h1 testerPath) /\
    processFinished h2 c2 s2 o2 e2 r2 =
      Some (tt, r3,
            [progressUpdated 100 "Processing completed";
             runFinished (QProcess.exitedCleanly s2 c2) "compare+prepare" c2 o2 e2]) /\
    m_mode r3 = Mode.None /\ m_step2Queued r3 = false /\
    QProcess.state (m_process r3) = QProcess.NotRunning.
Proof.
  intros T I L L1 S. do 3 eexists.
  split; [exact (runCompareAndPrepare_launches h _ _ r T I L S) |].
  split; [reflexivity |].
  split; [apply processFinished_first_phase; [reflexivity | reflexivity | exact L1] |].
  split; [reflexivity |].
  split; [apply processFinished_reports; reflexivity |].
  repeat split.
Qed.

Lemma runCompareAndPrepare_then_exits_witness :
  exists r1 r2 r3,
    runCompareAndPrepare goodHost "C:/tester" "C:/tester/run.ini" newRunner =
      Some (tt, r1, [runStarted "compare+prepare"]) /\
    m_process r1 =
      QProcess.mk QProcess.Running "python"
        ["main.py"; "--ini"; "C:/tester/run.ini"; "compare"] "C:/tester/src" /\
    processFinished goodHost 1 QProcess.CrashExit "" "" r1 =
      Some (tt, r2, [progressUpdated 100 "Processing completed"]) /\
    m_process r2 =
      QProcess.mk QProcess.Running "python"
        ["main.py"; "--ini"; "C:/tester/run.ini"; "prepare-ui"] "C:/tester/src" /\
    processFinished goodHost 0 QProcess.NormalExit "done" "" r2 =
      Some (tt, r3,
            [progressUpdated 100 "Processing completed";
             runFinished true "compare+prepare" 0 "done" ""]) /\
    m_mode r3 = Mode.None /\ m_step2Queued r3 = false /\
    QProcess.state (m_process r3) = QProcess.NotRunning.
Proof.
  apply (runCompareAndPrepare_then_exits goodHost goodHost goodHost
           "C:/tester" "C:/tester/run.ini" newRunner
           1 0 QProcess.CrashExit QProcess.NormalExit "" "" "done" "").
  - discriminate.
  - discriminate.
  - split; [right; right; vm_compute; discriminate | reflexivity].
  - split; [right; right; vm_compute; discriminate | reflexivity].
  - reflexivity.
Defined.

(** ** The form of a test key *)

Lemma hasChar_replace (before after : ascii) (s : string) :
  before <> after -> hasChar before (QString.replace before after s) = false.
Proof.
  intros N. unfold QString.replace. induction s as [| c s IH]; simpl; auto.
  rewrite IH, orb_false_r. destruct (Ascii.eqb_spec c before) as [E | D].
  - apply Ascii.eqb_neq. congruence.
  - now apply Ascii.eqb_neq.
Qed.

Lemma replace_absent (before after : ascii) (s : string) :
  hasChar before s = false -> QString.replace before after s = s.
Proof.
  unfold QString.replace. induction s as [| c s IH]; simpl; auto.
  intros H. apply orb_false_iff in H. destruct H as [H1 H2].
  rewrite H1. now rewrite IH.
Qed.

Lemma hasChar_drop (c : ascii) (n : nat) (s : string) :
  hasChar c s = false -> hasChar c (QString.drop n s) = false.
Proof.
  revert s. induction n as [| n IH]; intros [| d s]; simpl; auto.
  intros H. apply orb_false_iff in H. now apply IH.
Qed.

Lemma hasChar_chop1 (c : ascii) (s : string) :
  hasChar c s = false -> hasChar c (QString.chop1 s) = false.
Proof.
  induction s as [| d s IH]; auto. destruct s as [| d' s]; auto.
  intros H. change (hasChar c (String d (QString.chop1 (String d' s))) = false).
  simpl in H. apply orb_false_iff in H. destruct H as [H1 H2].
  simpl. rewrite H1. apply IH. exact H2.
Qed.

Lemma hasChar_chopSlashes (c : ascii) (fuel : nat) (s : string) :
  hasChar c s = false -> hasChar c (chopSlashes fuel s) = false.
Proof.
  revert s. induction fuel as [| fuel IH]; intros s H; simpl; auto.
  destruct (QString.endsWithChar s "/"); auto using hasChar_chop1.
Qed.

Lemma length_chop1 (s : string) :
  String.length (QString.chop1 s) = pred (String.length s).
Proof.
  induction s as [| d s IH]; auto. destruct s as [| d' s]; auto.
  change (S (String.length (QString.chop1 (String d' s))) = S (String.length s)).
  rewrite IH. reflexivity.
Qed.

(** With enough fuel the loop runs to its end. *)
Lemma chopSlashes_end (fuel : nat) (s : string) :
  (String.length s <= fuel)%nat ->
  QString.endsWithChar (chopSlashes fuel s) "/" = false.
Proof.
  revert s. induction fuel as [| fuel IH]; intros s L.
  - destruct s; [reflexivity | simpl in L; lia].
  - simpl. destruct (QString.endsWithChar s "/") eqn:E; [| exact E].
    apply IH. rewrite length_chop1. lia.
Qed.

Lemma startsWith_chop1 (s : string) :
  QString.startsWith s "/" = false -> QString.startsWith (QString.chop1 s) "/" = false.
Proof. destruct s as [| c [| d s]]; auto. Qed.

Lemma startsWith_chopSlashes (fuel : nat) (s : string) :
  QString.startsWith s "/" = false ->
  QString.startsWith (chopSlashes fuel s) "/" = false.
Proof.
  revert s. induction fuel as [| fuel IH]; intros s H; cbn [chopSlashes]; auto.
  destruct (QString.endsWithChar s "/"); auto using startsWith_chop1.
Qed.

(** Where the loop over the slashes stops, a slash does not follow. *)
Lemma skipSlashes_stops (fuel : nat) (path : string) (i : Z) :
  QString.size path - i < Z.of_nat fuel ->
  let j := skipSlashes fuel path i in
  i <= j /\
  (j <? QString.size path) &&
  match QString.at_ path j with
  | Some c => Ascii.eqb c "/"
  | None => false
  end = false.
Proof.
  revert i. induction fuel as [| fuel IH]; intros i L; simpl.
  - split; [lia |]. destruct (Z.ltb_spec i (QString.size path)); [lia | reflexivity].
  - destruct ((i <? QString.size path) &&
              match QString.at_ path i with
              | Some c => Ascii.eqb c "/"
              | None => false
              end) eqn:C.
    + destruct (IH (i + 1)) as [G H]; [lia |]. split; [lia | exact H].
    + split; [lia | exact C].
Qed.

Lemma startsWith_drop (n : nat) (s : string) :
  QString.startsWith (QString.drop n s) "/" = true ->
  (n < String.length s)%nat /\ String.get n s = Some "/"%char.
Proof.
  revert s. induction n as [| n IH]; intros [| c s];
    cbn [QString.drop QString.startsWith]; try discriminate.
  - rewrite andb_true_r. intros E. apply Ascii.eqb_eq in E. subst c.
    split; [simpl; lia | reflexivity].
  - intros H. destruct (IH s H) as [L G]. split; [simpl; lia | exact G].
Qed.

(** X19.  A test key taken from a path that holds the marker
    testSets_results, in any letter case, is in a normal form: it has no
    backslash, and it neither starts nor ends with a slash, whatever
    follows the marker in the path. *)
Theorem extractTestKeyFromPath_normal_form (folderPath : string) :
  0 <= QString.indexOf (QString.toLower (normalized folderPath)) "testsets_results" ->
  let k := extractTestKeyFromPath folderPath in
  hasChar "\" k = false /\
  QString.startsWith k "/" = false /\
  QString.endsWithChar k "/" = false.
Proof.
  intros M. unfold extractTestKeyFromPath. fold (normalized folderPath).
  set (np := normalized folderPath) in *.
  destruct (Z.geb_spec (QString.indexOf (QString.toLower np) "testsets_results") 0)
    as [_ | N]; [| lia].
  cbv zeta.
  set (start := if QString.indexOfCI np resultsMarker >=? 0
                then QString.indexOfCI np resultsMarker + QString.size resultsMarker
                else QString.indexOf (QString.toLower np) "testsets_results"
                     + QString.size resultsMarker).
  assert (S0 : 0 <= start).
  { unfold start. destruct (Z.geb_spec (QString.indexOfCI np resultsMarker) 0);
      change (QString.size resultsMarker) with 16; lia. }
  destruct (skipSlashes_stops (S (String.length np)) np start) as [G C].
  { unfold QString.size. lia. }
  set (j := skipSlashes (S (String.length np)) np start) in *.
  set (t := QString.mid np j).
  assert (B : hasChar "\" np = false) by (apply hasChar_replace; discriminate).
  assert (Bt : hasChar "\" (chopSlashes (String.length t) t) = false).
  { apply hasChar_chopSlashes. unfold t, QString.mid. now apply hasChar_drop. }
  rewrite (replace_absent _ _ _ Bt).
  split; [exact Bt |]. split; [| now apply chopSlashes_end].
  apply startsWith_chopSlashes.
  destruct (QString.startsWith t "/") eqn:E; [| reflexivity].
  apply startsWith_drop in E. destruct E as [L E].
  unfold QString.at_ in C. destruct (Z.ltb_spec j 0) as [? | _]; [lia |].
  rewrite E in C. simpl in C. rewrite andb_true_r in C.
  destruct (Z.ltb_spec j (QString.size np)) as [? | F]; [discriminate |].
  unfold QString.size in F. lia.
Qed.

Lemma extractTestKeyFromPath_normal_form_witness :
  let k := extractTestKeyFromPath "C:\results\TestSets_Results\\Cat\Ev\Set\F0007\\" in
  k = "Cat/Ev/Set/F0007" /\
  hasChar "\" k = false /\
  QString.startsWith k "/" = false /\
  QString.endsWithChar k "/" = false.
Proof.
  split; [vm_compute; reflexivity |].
  apply (extractTestKeyFromPath_normal_form
           "C:\results\TestSets_Results\\Cat\Ev\Set\F0007\\").
  vm_compute. discriminate.
Defined.
